(** * A shallow embedding of wgpu-openxr-example

    The renderer's arithmetic is on [f32]; it is modelled here by the real
    numbers [R] (rounding is not modelled).  glam's [Vec3], [Vec4], [Quat]
    and [Mat4] are records over [R] whose operations transcribe glam's
    definitions.  The OpenXR frame coordinator of [src/xr.rs] is a state
    and error monad whose state records every runtime call it issues. *)

From Stdlib Require Import Reals Lra List Bool ZArith Lia.
From Stdlib Require Ascii String.
Import ListNotations.
Open Scope R_scope.

(* ------------------------------------------------------------------ *)
(** ** glam: vectors, quaternions, matrices *)

Module Glam.

Record Vec3 := vec3 { x : R; y : R; z : R }.
Record Vec4 := vec4 { x4 : R; y4 : R; z4 : R; w4 : R }.
(** [glam::quat(x, y, z, w)] *)
Record Quat := quat { qx : R; qy : R; qz : R; qw : R }.
(** Column-major: [x_axis], [y_axis], [z_axis], [w_axis] are the columns. *)
Record Mat4 := from_cols { x_axis : Vec4; y_axis : Vec4; z_axis : Vec4; w_axis : Vec4 }.

Definition Vec3_ZERO := vec3 0 0 0.
Definition Vec3_ONE := vec3 1 1 1.
Definition Vec3_Y := vec3 0 1 0.
Definition Vec3_Z := vec3 0 0 1.
Definition Quat_IDENTITY := quat 0 0 0 1.

Definition vadd (a b : Vec3) := vec3 (x a + x b) (y a + y b) (z a + z b).
Definition vsub (a b : Vec3) := vec3 (x a - x b) (y a - y b) (z a - z b).
Definition vscale (a : Vec3) (s : R) := vec3 (x a * s) (y a * s) (z a * s).
Definition dot (a b : Vec3) := x a * x b + y a * y b + z a * z b.
Definition cross (a b : Vec3) :=
  vec3 (y a * z b - z a * y b) (z a * x b - x a * z b) (x a * y b - y a * x b).
Definition length (a : Vec3) := sqrt (dot a a).
Definition normalize (a : Vec3) := vscale a (/ length a).
Definition extend (a : Vec3) (w : R) := vec4 (x a) (y a) (z a) w.

Definition v4add (a b : Vec4) :=
  vec4 (x4 a + x4 b) (y4 a + y4 b) (z4 a + z4 b) (w4 a + w4 b).
Definition v4scale (a : Vec4) (s : R) :=
  vec4 (x4 a * s) (y4 a * s) (z4 a * s) (w4 a * s).
Definition v4neg (a : Vec4) := vec4 (- x4 a) (- y4 a) (- z4 a) (- w4 a).

(** [Quat::from_rotation_x]: [let (s, c) = (angle * 0.5).sin_cos()]. *)
Definition from_rotation_x (angle : R) :=
  quat (sin (angle * (1/2))) 0 0 (cos (angle * (1/2))).

(** [Quat * Quat] (Hamilton product, as in glam's scalar backend). *)
Definition qmul (a b : Quat) :=
  let '(quat x0 y0 z0 w0) := a in
  let '(quat x1 y1 z1 w1) := b in
  quat (w0 * x1 + x0 * w1 + y0 * z1 - z0 * y1)
       (w0 * y1 - x0 * z1 + y0 * w1 + z0 * x1)
       (w0 * z1 + x0 * y1 - y0 * x1 + z0 * w1)
       (w0 * w1 - x0 * x1 - y0 * y1 - z0 * z1).

(** [Quat * Vec3] ([mul_vec3]). *)
Definition qrot (q : Quat) (v : Vec3) :=
  let w := qw q in
  let b := vec3 (qx q) (qy q) (qz q) in
  let b2 := dot b b in
  vadd (vadd (vscale v (w * w - b2)) (vscale b (dot v b * 2)))
       (vscale (cross b v) (w * 2)).

(** [Mat4 * Vec4] *)
Definition mul_vec4 (m : Mat4) (v : Vec4) :=
  v4add (v4add (v4scale (x_axis m) (x4 v)) (v4scale (y_axis m) (y4 v)))
        (v4add (v4scale (z_axis m) (z4 v)) (v4scale (w_axis m) (w4 v))).

(** [Mat4 * Mat4] *)
Definition mul_mat4 (a b : Mat4) :=
  from_cols (mul_vec4 a (x_axis b)) (mul_vec4 a (y_axis b))
            (mul_vec4 a (z_axis b)) (mul_vec4 a (w_axis b)).

Definition v4_list (v : Vec4) := [x4 v; y4 v; z4 v; w4 v].

Definition to_cols_array (m : Mat4) : list R :=
  v4_list (x_axis m) ++ v4_list (y_axis m) ++ v4_list (z_axis m) ++ v4_list (w_axis m).

Definition from_cols_array (a00 a01 a02 a03 a10 a11 a12 a13
                            a20 a21 a22 a23 a30 a31 a32 a33 : R) :=
  from_cols (vec4 a00 a01 a02 a03) (vec4 a10 a11 a12 a13)
            (vec4 a20 a21 a22 a23) (vec4 a30 a31 a32 a33).

(** [Mat4::from_translation] *)
Definition from_translation (v : Vec3) :=
  from_cols (vec4 1 0 0 0) (vec4 0 1 0 0) (vec4 0 0 1 0) (vec4 (x v) (y v) (z v) 1).

(** [Mat4::look_to_rh] and [Mat4::look_at_rh]. *)
Definition look_to_rh (eye dir up : Vec3) :=
  let f := normalize dir in
  let s := normalize (cross f up) in
  let u := cross s f in
  from_cols (vec4 (x s) (x u) (- x f) 0)
            (vec4 (y s) (y u) (- y f) 0)
            (vec4 (z s) (z u) (- z f) 0)
            (vec4 (- dot s eye) (- dot u eye) (dot f eye) 1).

Definition look_at_rh (eye center up : Vec3) := look_to_rh eye (vsub center eye) up.

(** [Mat4::perspective_rh] *)
Definition perspective_rh (fov_y_radians aspect_ratio z_near z_far : R) :=
  let sin_fov := sin ((1/2) * fov_y_radians) in
  let cos_fov := cos ((1/2) * fov_y_radians) in
  let h := cos_fov / sin_fov in
  let w := h / aspect_ratio in
  let r := z_far / (z_near - z_far) in
  from_cols (vec4 w 0 0 0) (vec4 0 h 0 0) (vec4 0 0 r (-1)) (vec4 0 0 (r * z_near) 0).

(** [Mat3A::from_quat], as its three columns. *)
Definition mat3_from_quat (q : Quat) : Vec3 * Vec3 * Vec3 :=
  let '(quat x y z w) := q in
  let x2 := x + x in let y2 := y + y in let z2 := z + z in
  let xx := x * x2 in let xy := x * y2 in let xz := x * z2 in
  let yy := y * y2 in let yz := y * z2 in let zz := z * z2 in
  let wx := w * x2 in let wy := w * y2 in let wz := w * z2 in
  (vec3 (1 - (yy + zz)) (xy + wz) (xz - wy),
   vec3 (xy - wz) (1 - (xx + zz)) (yz + wx),
   vec3 (xz + wy) (yz - wx) (1 - (xx + yy))).

(** [Affine3A]: a 3x3 linear part (columns) and a translation. *)
Record Affine3A := mk_affine { matrix3 : Vec3 * Vec3 * Vec3; translation : Vec3 }.

(** [Affine3A::from_scale_rotation_translation] *)
Definition from_scale_rotation_translation (scale : Vec3) (rotation : Quat) (tr : Vec3) :=
  let '(cx, cy, cz) := mat3_from_quat rotation in
  mk_affine (vscale cx (x scale), vscale cy (y scale), vscale cz (z scale)) tr.

(** [Mat4::from(Affine3A)] *)
Definition mat4_from_affine (a : Affine3A) :=
  let '(cx, cy, cz) := matrix3 a in
  from_cols (extend cx 0) (extend cy 0) (extend cz 0) (extend (translation a) 1).

End Glam.
Import Glam.

(* ------------------------------------------------------------------ *)
(** ** OpenXR value types *)

Record Posef := mk_pose { orientation : Quat; position : Vec3 }.
Definition Posef_IDENTITY := mk_pose Quat_IDENTITY Vec3_ZERO.

Record Fovf := mk_fov { angle_left : R; angle_right : R; angle_up : R; angle_down : R }.
Record View := mk_view { pose : Posef; fov : Fovf }.

(** Rust's [f32::to_radians]: [self * (PI / 180.0)]. *)
Definition to_radians (d : R) := d * (PI / 180).

(** [openxr_pose_to_glam] (src/xr.rs). *)
Definition openxr_pose_to_glam (p : Posef) : Vec3 * Quat :=
  let rotation :=
    let o := orientation p in
    qmul (from_rotation_x (to_radians 180)) (quat (qw o) (qz o) (qy o) (qx o)) in
  let translation := vec3 (- x (position p)) (y (position p)) (- z (position p)) in
  (translation, rotation).

(* ------------------------------------------------------------------ *)
(** ** src/camera.rs *)

Module Camera.

Record PerspectiveCamera := mk_camera {
  eye : Vec3; target : Vec3; up : Vec3;
  aspect_ratio : R; fov_y_rad : R;
  z_near : R; z_far : R }.

(** [let mut view = view; view.w_axis += view * o;] *)
Definition offset_view (view : Mat4) (o : Vec4) :=
  from_cols (x_axis view) (y_axis view) (z_axis view) (v4add (w_axis view) (mul_vec4 view o)).

(** The interpupillary distance of camera.rs: [63.0 / 1_000.0]. *)
Definition ipd := 63 / 1000.

(** [PerspectiveCamera::to_view_proj_matrices] (src/camera.rs). *)
Definition to_view_proj_matrices (c : PerspectiveCamera) : list R :=
  let offset := vec4 (ipd / 2) 0 0 0 in
  let view := look_at_rh (eye c) (target c) (up c) in
  let proj := perspective_rh (fov_y_rad c) (aspect_ratio c) (z_near c) (z_far c) in
  concat (map (fun o => to_cols_array (mul_mat4 proj (offset_view view o)))
              [v4neg offset; offset]).

(** The interpupillary distance of the copy in src/main.rs: [68.3 / 1_000.0]. *)
Definition main_ipd := 683 / 10000.

(** [PerspectiveCamera::to_view_proj_matrices] as src/main.rs has it. *)
Definition main_to_view_proj_matrices (c : PerspectiveCamera) : list R :=
  let offset := vec4 (main_ipd / 2) 0 0 0 in
  let view := look_at_rh (eye c) (target c) (up c) in
  let proj := perspective_rh (fov_y_rad c) (aspect_ratio c) (z_near c) (z_far c) in
  let view_l := offset_view view (v4neg offset) in
  let view_r := offset_view view offset in
  to_cols_array (mul_mat4 proj view_l) ++ to_cols_array (mul_mat4 proj view_r).

(** The construction as the claim on [to_view_proj_matrices] words it:
    the shared look-at view translated by [d] along the view's own X
    axis (a translation applied after the view, in view space), for the
    offsets [-ipd/2] and [+ipd/2] taken with either sign convention [s]. *)
Definition view_local_x_offset (view : Mat4) (d : R) :=
  mul_mat4 (from_translation (vec3 d 0 0)) view.

Definition claimed_local_x_matrices (c : PerspectiveCamera) (s : R) : list R :=
  let view := look_at_rh (eye c) (target c) (up c) in
  let proj := perspective_rh (fov_y_rad c) (aspect_ratio c) (z_near c) (z_far c) in
  concat (map (fun d => to_cols_array (mul_mat4 proj (view_local_x_offset view (s * d))))
              [- (ipd / 2); ipd / 2]).

(** The rotation and translation computed inline in the closure of
    [to_view_proj_matrices_with_xr_views]. *)
Definition xr_rotation_translation (p : Posef) : Vec3 * Quat :=
  let xr_rotation :=
    let o := orientation p in
    qmul (from_rotation_x (to_radians 180)) (quat (qw o) (qz o) (qy o) (qx o)) in
  let xr_translation := vec3 (- x (position p)) (y (position p)) (- z (position p)) in
  (xr_translation, xr_rotation).

(** The view matrix of one XR view. *)
Definition xr_view (c : PerspectiveCamera) (p : Posef) : Mat4 :=
  let '(xr_translation, xr_rotation) := xr_rotation_translation p in
  look_at_rh (vadd (eye c) xr_translation)
             (vadd (vadd (eye c) xr_translation) (qrot xr_rotation Vec3_Z))
             (qrot xr_rotation Vec3_Y).

(** The asymmetric projection matrix of one XR view. *)
Definition xr_proj (c : PerspectiveCamera) (f : Fovf) : Mat4 :=
  let tan_left := tan (angle_left f) in
  let tan_right := tan (angle_right f) in
  let tan_down := tan (angle_down f) in
  let tan_up := tan (angle_up f) in
  let tan_width := tan_right - tan_left in
  let tan_height := tan_up - tan_down in
  let a11 := 2 / tan_width in
  let a22 := 2 / tan_height in
  let a31 := (tan_right + tan_left) / tan_width in
  let a32 := (tan_up + tan_down) / tan_height in
  let a33 := - z_far c / (z_far c - z_near c) in
  let a43 := - (z_far c * z_near c) / (z_far c - z_near c) in
  from_cols_array a11 0 0 0
                  0 a22 0 0
                  a31 a32 a33 (-1)
                  0 0 a43 0.

(** [PerspectiveCamera::to_view_proj_matrices_with_xr_views] (src/camera.rs). *)
Definition to_view_proj_matrices_with_xr_views (c : PerspectiveCamera) (views : list View) :=
  flat_map (fun v => to_cols_array (mul_mat4 (xr_proj c (fov v)) (xr_view c (pose v)))) views.

End Camera.

(* ------------------------------------------------------------------ *)
(** ** src/main_state.rs: instance data *)

Module MainState.

(** [MainState::instances_to_data] *)
Definition instances_to_data (poses : list (Vec3 * Quat)) : list R :=
  flat_map (fun '(t, r) =>
              to_cols_array (mat4_from_affine (from_scale_rotation_translation Vec3_ONE r t)))
           poses.

(** The column-major 4x4 matrix of the rotation [r] followed by the
    translation [t], at unit scale. *)
Definition rotation_translation_cols (t : Vec3) (r : Quat) : list R :=
  let '(cx, cy, cz) := mat3_from_quat r in
  v4_list (extend cx 0) ++ v4_list (extend cy 0) ++ v4_list (extend cz 0) ++ v4_list (extend t 1).

(** [queue.write_buffer(buffer, offset, data)] on the buffer's contents,
    counted in [f32] elements. *)
Definition write_buffer (buffer : list R) (offset : nat) (data : list R) : list R :=
  firstn offset buffer ++ data ++ skipn (offset + List.length data) buffer.

(** [MainState::upload_instances]: the instance buffer after the upload. *)
Definition upload_instances (instance_buffer : list R) (instances : list (Vec3 * Quat)) :=
  write_buffer instance_buffer 0 (instances_to_data instances).

(** The [instances] of [MainState::new]. *)
Definition initial_instances : list (Vec3 * Quat) :=
  [(vec3 0 0 1, Quat_IDENTITY); (vec3 1 0 2, Quat_IDENTITY); (vec3 (-1) 0 2, Quat_IDENTITY)].

Inductive VertexFormat := Float32x3 | Float32x4.

Record VertexAttribute := mk_attribute {
  attr_offset : nat;        (* in bytes *)
  shader_location : nat;
  attr_format : VertexFormat }.

(** [std::mem::size_of::<f32>()] *)
Definition size_of_f32 : nat := 4.

(** The [instance_buffer_layout] of [MainState::new]: [array_stride] and
    [attributes], with [step_mode: VertexStepMode::Instance]. *)
Definition instance_array_stride : nat := (size_of_f32 * 4 * 4)%nat.

Definition instance_attributes : list VertexAttribute :=
  map (fun i => mk_attribute (i * size_of_f32 * 4) (2 + i) Float32x4) (seq 0 4).

Definition format_components (f : VertexFormat) : nat :=
  match f with Float32x3 => 3 | Float32x4 => 4 end.

(** The [f32] components the vertex stage reads for attribute [a] of
    instance [n] from a buffer of [f32] laid out with [stride] bytes per
    instance, starting at byte [n * stride + a.offset]. *)
Definition fetch_attribute (data : list R) (stride n : nat) (a : VertexAttribute) : list R :=
  firstn (format_components (attr_format a))
         (skipn ((n * stride + attr_offset a) / size_of_f32) data).

(** The four columns of the transform of one (translation, rotation)
    pair, as [instances_to_data] builds it. *)
Definition instance_columns (p : Vec3 * Quat) : list (list R) :=
  let '(t, r) := p in
  let m := mat4_from_affine (from_scale_rotation_translation Vec3_ONE r t) in
  map v4_list [x_axis m; y_axis m; z_axis m; w_axis m].

End MainState.

(* ------------------------------------------------------------------ *)
(** ** src/blit_state.rs: the presentation sampler *)

Module Blit.

Inductive AddressMode := ClampToEdge | Repeat | MirrorRepeat | ClampToBorder.
Inductive FilterMode := Nearest | Linear.

Record SamplerDescriptor := mk_sampler {
  address_mode_u : AddressMode; address_mode_v : AddressMode; address_mode_w : AddressMode;
  mag_filter : FilterMode; min_filter : FilterMode; mipmap_filter : FilterMode }.

(** The sampler of [BlitState::new] (src/blit_state.rs). *)
Definition blit_sampler :=
  {| address_mode_u := ClampToEdge; address_mode_v := ClampToEdge;
     address_mode_w := ClampToEdge;
     mag_filter := Linear; min_filter := Nearest; mipmap_filter := Nearest |}.

(** The sampler of [BlitState::new] as src/main.rs has it. *)
Definition main_blit_sampler :=
  {| address_mode_u := ClampToEdge; address_mode_v := ClampToEdge;
     address_mode_w := ClampToEdge;
     mag_filter := Linear; min_filter := Nearest; mipmap_filter := Nearest |}.

(** [BlitVertex]: a position and its texture coordinates. *)
Record BlitVertex := blit_vertex { bv_position : Vec3; bv_uv_coords : R * R }.

(** The vertex buffer of [BlitState::new] (src/blit_state.rs). *)
Definition blit_vertices : list BlitVertex :=
  [ blit_vertex (vec3 1 1 0) (1, 0);
    blit_vertex (vec3 (-1) 1 0) (0, 0);
    blit_vertex (vec3 (-1) (-1) 0) (0, 1);
    blit_vertex (vec3 1 (-1) 0) (1, 1);
    blit_vertex (vec3 1 1 0) (1, 0);
    blit_vertex (vec3 (-1) (-1) 0) (0, 1) ].

(** The vertex buffer of [BlitState::new] as src/main.rs has it. *)
Definition main_blit_vertices : list BlitVertex :=
  [ blit_vertex (vec3 1 1 0) (1, 0);
    blit_vertex (vec3 (-1) 1 0) (0, 0);
    blit_vertex (vec3 (-1) (-1) 0) (0, 1);
    blit_vertex (vec3 1 (-1) 0) (1, 1);
    blit_vertex (vec3 1 1 0) (1, 0);
    blit_vertex (vec3 (-1) (-1) 0) (0, 1) ].

(** [PrimitiveTopology::TriangleList], the default topology: every three
    vertices make a triangle. *)
Fixpoint triangle_list {A} (vs : list A) : list (A * A * A) :=
  match vs with
  | a :: b :: c :: vs' => (a, b, c) :: triangle_list vs'
  | _ => []
  end.

(** The triangles of [encode_draw_pass]'s [rpass.draw(0..6, 0..1)]. *)
Definition blit_triangles := triangle_list (firstn 6 blit_vertices).

(** Which side of the edge from [a] to [b] the point (px, py) is on. *)
Definition edge (a b : Vec3) (px py : R) : R :=
  (x b - x a) * (py - y a) - (y b - y a) * (px - x a).

(** The point (px, py) lies in the triangle (edges of one sign; the
    default [PrimitiveState] culls no face). *)
Definition in_triangle (t : BlitVertex * BlitVertex * BlitVertex) (px py : R) : Prop :=
  let '(a, b, c) := t in
  let a := bv_position a in let b := bv_position b in let c := bv_position c in
  (0 <= edge a b px py /\ 0 <= edge b c px py /\ 0 <= edge c a px py) \/
  (edge a b px py <= 0 /\ edge b c px py <= 0 /\ edge c a px py <= 0).

End Blit.

(* ------------------------------------------------------------------ *)
(** ** src/xr.rs: the OpenXR frame coordinator *)

Module Xr.

Inductive SessionState :=
  UNKNOWN | IDLE | READY | SYNCHRONIZED | VISIBLE | FOCUSED | STOPPING | LOSS_PENDING | EXITING.

(** The events [xr_instance.poll_event] can return, as [pre_frame] tells them apart. *)
Inductive Event :=
| SessionStateChanged (s : SessionState)
| InstanceLossPending
| EventsLost (lost_event_count : nat)
| OtherEvent.

Inductive Hand := LeftHand | RightHand.

Record FrameState := mk_frame_state { predicted_display_time : Z; should_render : bool }.

(** The sub-image rectangle, at offset (0, 0). *)
Record Rect2Di := mk_rect { rect_width : Z; rect_height : Z }.

(** A [CompositionLayerProjection] on the stage space: view 0 on array
    layer 0 and view 1 on array layer 1 of the swapchain, each on [rect]. *)
Inductive Layer := ProjectionLayer (v0 v1 : View) (rect : Rect2Di).

(** The calls the coordinator issues, in the order it issues them. *)
Inductive Call :=
| PollEvent
| SessionBegin
| SessionEnd
| Sleep
| FrameWait
| FrameBegin
| FrameEnd (display_time : Z) (layers : list Layer)
| CreateSwapchain (width height : Z)
| EnumerateImages
| SyncActions
| IsActive (h : Hand)
| LocateSpace (h : Hand) (time : Z)
| LocateViews (time : Z)
| AcquireImage
| WaitImage
| EncodeBlit (image_index : nat)
| ReleaseImage
| QueueSubmit.

(** What the XR runtime does during one tick of the application. *)
Record Runtime := mk_runtime {
  rt_events : list Event;          (* events delivered since the previous tick *)
  rt_frame : FrameState;           (* the result of [frame_wait.wait()] *)
  rt_fails : Call -> bool;         (* the calls that return an error *)
  rt_active : Hand -> bool;        (* [action.is_active(..)] *)
  rt_space_pose : Hand -> Posef;   (* [space.locate(..).pose] *)
  rt_views : list View;            (* [session.locate_views(..).1] *)
  rt_image_count : nat;            (* [handle.enumerate_images()] *)
  rt_image_index : nat }.          (* [handle.acquire_image()] *)

Record Swapchain := mk_swapchain { sc_resolution : Z * Z; sc_buffers : nat }.

(** The mutable part of [XrState], the runtime's event queue, and the
    calls issued so far. *)
Record XrState := mk_xr {
  session_running : bool;
  swapchain : option Swapchain;
  views : list (Z * Z);  (* recommended image width and height of each view *)
  event_queue : list Event;
  calls : list Call }.

Record PostFrameData := mk_post_frame {
  pf_views : list View; left_hand : option (Vec3 * Quat); right_hand : option (Vec3 * Quat) }.

(** [PostFrameData::default()] *)
Definition post_frame_default := mk_post_frame [] None None.

(** An [anyhow::Result] carried through [?]; [Panic] is an [unwrap] on an
    error or an index out of bounds. *)
Inductive Outcome (A : Type) := Ok (a : A) | Err (c : Call) | Panic.
Arguments Ok {A}. Arguments Err {A}. Arguments Panic {A}.

Definition M (A : Type) := XrState -> Outcome A * XrState.

Definition ret {A} (a : A) : M A := fun st => (Ok a, st).
Definition bind {A B} (m : M A) (k : A -> M B) : M B := fun st =>
  match m st with
  | (Ok a, st') => k a st'
  | (Err c, st') => (Err c, st')
  | (Panic, st') => (Panic, st')
  end.
Definition panic {A} : M A := fun st => (Panic, st).
Definition get : M XrState := fun st => (Ok st, st).
Definition put (st : XrState) : M unit := fun _ => (Ok tt, st).

Declare Scope xr_scope.
Delimit Scope xr_scope with xr.
Notation "x <- m ;; k" := (bind m (fun x => k))
  (at level 61, m at next level, right associativity) : xr_scope.
Notation "m ;; k" := (bind m (fun _ => k))
  (at level 61, right associativity) : xr_scope.
Open Scope xr_scope.

Definition set_running (b : bool) : M unit := fun st =>
  (Ok tt, mk_xr b (swapchain st) (views st) (event_queue st) (calls st)).
Definition set_swapchain (s : option Swapchain) : M unit := fun st =>
  (Ok tt, mk_xr (session_running st) s (views st) (event_queue st) (calls st)).
Definition set_queue (q : list Event) : M unit := fun st =>
  (Ok tt, mk_xr (session_running st) (swapchain st) (views st) q (calls st)).
Definition record (c : Call) : M unit := fun st =>
  (Ok tt, mk_xr (session_running st) (swapchain st) (views st) (event_queue st) (calls st ++ [c])).

Section Coordinator.
Variable rt : Runtime.

(** A runtime call followed by [?]. *)
Definition issue (c : Call) : M unit :=
  record c ;; if rt_fails rt c then (fun st => (Err c, st)) else ret tt.

(** A runtime call followed by [.unwrap()]. *)
Definition issue_unwrap (c : Call) : M unit :=
  record c ;; if rt_fails rt c then panic else ret tt.

(** One event of the [while let Some(event) = poll_event(..)?] loop of
    [pre_frame]; [false] is its [return Ok(None)]. *)
Definition handle_event (e : Event) : M bool :=
  match e with
  | SessionStateChanged s =>
      match s with
      | READY => issue SessionBegin ;; set_running true ;; ret true
      | STOPPING => issue SessionEnd ;; set_running false ;; ret true
      | EXITING | LOSS_PENDING => ret false
      | _ => ret true
      end
  | InstanceLossPending => ret false
  | EventsLost _ => ret true
  | OtherEvent => ret true
  end.

(** The polling loop over the queue [q] held in the state: every poll
    removes the head of the queue. *)
Fixpoint handle_events (q : list Event) : M bool :=
  issue PollEvent ;;
  match q with
  | [] => ret true
  | e :: q' => set_queue q' ;; cont <- handle_event e ;;
               if cont then handle_events q' else ret false
  end.

(** [XrState::pre_frame] *)
Definition pre_frame : M (option FrameState) :=
  st <- get ;;
  cont <- handle_events (event_queue st) ;;
  if negb cont then ret None else
  st' <- get ;;
  if negb (session_running st') then record Sleep ;; ret None else
  issue FrameWait ;;
  issue FrameBegin ;;
  ret (Some (rt_frame rt)).

(** The [swapchain.get_or_insert_with(..)] of [post_frame]. *)
Definition get_or_insert_swapchain : M Swapchain :=
  st <- get ;;
  match swapchain st with
  | Some sc => ret sc
  | None =>
      match views st with
      | [] => panic
      | (w, h) :: _ =>
          issue_unwrap (CreateSwapchain w h) ;;
          issue_unwrap EnumerateImages ;;
          let sc := mk_swapchain (w, h) (rt_image_count rt) in
          set_swapchain (Some sc) ;; ret sc
      end
  end.

(** The [locate_hand_pose] closure of [post_frame]. *)
Definition locate_hand_pose (h : Hand) (time : Z) : M (option (Vec3 * Quat)) :=
  issue (IsActive h) ;;
  if rt_active rt h then
    issue (LocateSpace h time) ;;
    ret (Some (openxr_pose_to_glam (rt_space_pose rt h)))
  else ret None.

(** [XrState::post_frame] *)
Definition post_frame (fs : FrameState) : M PostFrameData :=
  if negb (should_render fs) then
    issue (FrameEnd (predicted_display_time fs) []) ;; ret post_frame_default
  else
    sc <- get_or_insert_swapchain ;;
    issue SyncActions ;;
    left_hand <- locate_hand_pose LeftHand (predicted_display_time fs) ;;
    right_hand <- locate_hand_pose RightHand (predicted_display_time fs) ;;
    issue (LocateViews (predicted_display_time fs)) ;;
    let vs := rt_views rt in
    issue_unwrap AcquireImage ;;
    let image_index := rt_image_index rt in
    issue_unwrap WaitImage ;;
    (if Nat.ltb image_index (sc_buffers sc) then record (EncodeBlit image_index) else panic) ;;
    ret (mk_post_frame vs left_hand right_hand).

(** [XrState::post_queue_submit] *)
Definition post_queue_submit (fs : FrameState) (vs : list View) : M unit :=
  st <- get ;;
  match swapchain st with
  | Some sc =>
      issue_unwrap ReleaseImage ;;
      let rect := mk_rect (fst (sc_resolution sc)) (snd (sc_resolution sc)) in
      match vs with
      | v0 :: v1 :: _ => issue (FrameEnd (predicted_display_time fs) [ProjectionLayer v0 v1 rect])
      | _ => panic
      end
  | None => ret tt
  end.

(** An error returned by [m] is logged and the frame abandoned. *)
Definition try_ {A} (m : M A) : M (option A) := fun st =>
  match m st with
  | (Ok a, st') => (Ok (Some a), st')
  | (Err _, st') => (Ok None, st')
  | (Panic, st') => (Panic, st')
  end.

Definition deliver_events : M unit := fun st =>
  (Ok tt, mk_xr (session_running st) (swapchain st) (views st)
                (event_queue st ++ rt_events rt) (calls st)).

(** Modelled from the spec: the application's frame loop, the caller of
    [pre_frame], [post_frame] and [post_queue_submit], is not under src/
    (src/main.rs is an older revision that calls a one-argument
    [post_frame] and never calls [post_queue_submit]).  Following the
    spec's per-frame protocol: [pre_frame]; when it yields a frame state,
    [post_frame]; when that reports something to draw ([should_render]),
    the queue submission and then [post_queue_submit] with the located
    views.  Following its failure semantics, a per-frame XR error is
    logged and the loop continues with the next tick. *)
Definition tick : M unit :=
  deliver_events ;;
  r <- try_ pre_frame ;;
  match r with
  | Some (Some fs) =>
      pd <- try_ (post_frame fs) ;;
      match pd with
      | Some pd =>
          if should_render fs then
            record QueueSubmit ;; _ <- try_ (post_queue_submit fs (pf_views pd)) ;; ret tt
          else ret tt
      | None => ret tt
      end
  | _ => ret tt
  end.

End Coordinator.

(** The pose [post_frame] returns for hand [h]. *)
Definition hand_pose (pd : PostFrameData) (h : Hand) :=
  match h with LeftHand => left_hand pd | RightHand => right_hand pd end.

(** Counting calls of one kind. *)
Definition count_calls (f : Call -> bool) (cs : list Call) : nat := List.length (filter f cs).

(** Counting events of one kind. *)
Definition count_events (f : Event -> bool) (es : list Event) : nat := List.length (filter f es).

Definition is_locate_space (h : Hand) (c : Call) : bool :=
  match c, h with
  | LocateSpace LeftHand _, LeftHand | LocateSpace RightHand _, RightHand => true
  | _, _ => false
  end.

Definition is_session_begin (c : Call) : bool :=
  match c with SessionBegin => true | _ => false end.
Definition is_session_end (c : Call) : bool :=
  match c with SessionEnd => true | _ => false end.
Definition is_ready (e : Event) : bool :=
  match e with SessionStateChanged READY => true | _ => false end.
Definition is_stopping (e : Event) : bool :=
  match e with SessionStateChanged STOPPING => true | _ => false end.

(** [session_running] after the READY and STOPPING events of [es]. *)
Definition running_after (b : bool) (es : list Event) : bool :=
  fold_left (fun b e => if is_ready e then true else if is_stopping e then false else b) es b.

(** The frame-protocol calls of a call log: [frame_stream.begin] and
    [frame_stream.end]. *)
Inductive Mark := MBegin | MEnd.

Definition frame_mark (c : Call) : list Mark :=
  match c with FrameBegin => [MBegin] | FrameEnd _ _ => [MEnd] | _ => [] end.

Definition frame_marks (cs : list Call) : list Mark := flat_map frame_mark cs.







(** The frame loop over the runtime's behaviour at each tick. *)
Fixpoint run (rts : list Runtime) : M unit :=
  match rts with
  | [] => ret tt
  | rt :: rts' => tick rt ;; run rts'
  end.

(** The events on which [pre_frame]'s loop does [return Ok(None)]. *)
Definition stops_polling (e : Event) : bool :=
  match e with
  | SessionStateChanged EXITING | SessionStateChanged LOSS_PENDING | InstanceLossPending => true
  | _ => false
  end.


End Xr.

(* ------------------------------------------------------------------ *)
(** ** src/xr.rs: the Vulkan version check of [initialize_with_wgpu] *)

Module XrInit.
Local Open Scope Z_scope.

(** [openxr::Version::new(major, minor, patch)]: a [u64] with the major
    version in bits 48..63, the minor in bits 32..47 and the patch in bits
    0..31; versions compare as their [u64]. *)
Definition version_new (major minor patch : Z) : Z :=
  Z.lor (Z.lor (Z.shiftl major 48) (Z.shiftl minor 32)) patch.

(** [Version::major]: [(self.0 >> 48) as u16]. *)
Definition version_major (v : Z) : Z := Z.land (Z.shiftr v 48) (Z.ones 16).

Definition vk_target_version_xr := version_new 1 1 0.

(** [true] when [initialize_with_wgpu] panics on the runtime's Vulkan
    graphics requirements:
    [vk_target_version_xr < reqs.min_api_version_supported ||
     vk_target_version_xr.major() > reqs.max_api_version_supported.major()]. *)
Definition xr_vulkan_version_rejected (min_api_version_supported max_api_version_supported : Z)
  : bool :=
  (vk_target_version_xr <? min_api_version_supported) ||
  (version_major max_api_version_supported <? version_major vk_target_version_xr).

End XrInit.

(** ** Concrete runtimes *)

Module Scenario.
Import Xr.

(** Two views of the identity pose with a zero field of view. *)
Definition view0 := mk_view Posef_IDENTITY (mk_fov 0 0 0 0).

(** A runtime that delivers [evs], has a frame to draw at time [t],
    no active hand action, and whose calls in [bad] fail. *)
Definition runtime (evs : list Event) (t : Z) (bad : Call -> bool) : Runtime :=
  mk_runtime evs (mk_frame_state t true) bad (fun _ => false) (fun _ => Posef_IDENTITY)
             [view0; view0] 3 0.

Definition no_fail (c : Call) : bool := false.

(** A running session before its first frame, with one 1x1 view. *)
Definition st_running := mk_xr true None [(1, 1)%Z] [] [].
(** A session that has not begun, with one 1x1 view. *)
Definition st_idle := mk_xr false None [(1, 1)%Z] [] [].

(** The swapchain [post_frame] creates for [st_idle] and runtimes of [runtime]. *)
Definition sc1 := mk_swapchain (1, 1)%Z 3.

(** The session becomes READY, the application draws a frame at each
    display time of [ts], then the session is STOPPING. *)
Definition ready_frames_stopping (ts : list Z) : list Runtime :=
  runtime [SessionStateChanged READY] 0 no_fail ::
  map (fun t => runtime [] t no_fail) ts ++
  [runtime [SessionStateChanged STOPPING] 0 no_fail].

End Scenario.
(* ------------------------------------------------------------------ *)
(** ** src/wgsl.rs: the include preprocessor

    A Rust [str] is a sequence of bytes; the preprocessor only looks for
    ASCII ('\n', '\r', "#include"), so a string is a list of [ascii]. *)

Module Wgsl.
Import Ascii String.

Definition text := list ascii.
Definition str (s : string) : text := list_ascii_of_string s.

Definition nl : ascii := "010"%char.
Definition cr : ascii := "013"%char.

(** [str::strip_prefix] *)
Fixpoint strip_prefix (p s : text) : option text :=
  match p, s with
  | [], _ => Some s
  | c :: p', d :: s' => if ascii_dec c d then strip_prefix p' s' else None
  | _ :: _, [] => None
  end.

Definition starts_with (p s : text) : bool :=
  match strip_prefix p s with Some _ => true | None => false end.

(** [str::contains] for a string pattern. *)
Fixpoint contains (p s : text) : bool :=
  starts_with p s || match s with [] => false | _ :: s' => contains p s' end.

(** [str::lines]: the pieces between the '\n's; a piece ended by '\n'
    also loses one '\r' just before it, and a final '\n' gives no empty
    last line.  [cur] is the current piece, reversed. *)
Definition strip_cr (l : text) : text :=
  match rev l with
  | c :: r => if ascii_dec c cr then rev r else l
  | [] => []
  end.

Fixpoint lines_from (s cur : text) : list text :=
  match s with
  | [] => match cur with [] => [] | _ => [rev cur] end
  | c :: s' =>
      if ascii_dec c nl then strip_cr (rev cur) :: lines_from s' []
      else lines_from s' (c :: cur)
  end.

Definition lines (s : text) : list text := lines_from s [].

(** [<[&str]>::join] *)
Fixpoint join (sep : text) (ls : list text) : text :=
  match ls with
  | [] => []
  | [l] => l
  | l :: ls' => l ++ sep ++ join sep ls'
  end.

(** An [anyhow::Result<String>]: the text or the error's context message. *)
Inductive PResult := POk (s : text) | PErr (msg : string).

Definition include_kw := str "#include".
Definition include_sp := str "#include ".

Section Preprocess.

(** [PathBuf]'s equality, by which the [HashMap] of files is looked up. *)
Variable path_eq : text -> text -> bool.

(** The [HashMap<PathBuf, String>] of files, as its (path, contents)
    entries; the map holds at most one entry per path. *)
Variable files : list (text * text).

(** [files.get(&PathBuf::from(filename))] *)
Definition get (filename : text) : option text :=
  option_map snd (find (fun kv => path_eq (fst kv) filename) files).

(** The closure mapped over the lines of [current_file]. *)
Definition expand_line (l : text) : PResult :=
  match strip_prefix include_sp l with
  | Some filename =>
      match get filename with
      | Some f => POk f
      | None => PErr "failed to find file"%string
      end
  | None => POk l
  end.

(** [.collect::<anyhow::Result<Vec<&str>>>()]: the first error, if any. *)
Fixpoint expand_lines (ls : list text) : list text + string :=
  match ls with
  | [] => inl []
  | l :: ls' =>
      match expand_line l with
      | PErr m => inr m
      | POk l' =>
          match expand_lines ls' with
          | inl r => inl (l' :: r)
          | inr m => inr m
          end
      end
  end.

(** One iteration of the [while] loop: [current_file.lines().map(..)
    .collect()?.join("\n")]. *)
Definition expand (s : text) : PResult :=
  match expand_lines (lines s) with
  | inl ls => POk (join [nl] ls)
  | inr m => PErr m
  end.

(** [preprocess(files, current_file)]: the [while] loop runs as long as
    the text contains "#include", so it need not terminate; [preprocess_rel
    s r] holds when the call on [s] returns [r]. *)
Inductive preprocess_rel : text -> PResult -> Prop :=
| pp_done s : contains include_kw s = false -> preprocess_rel s (POk s)
| pp_err s m : contains include_kw s = true -> expand s = PErr m -> preprocess_rel s (PErr m)
| pp_next s s' r : contains include_kw s = true -> expand s = POk s' ->
                   preprocess_rel s' r -> preprocess_rel s r.

(** The loop run for at most [fuel] iterations ([None]: still running). *)
Fixpoint preprocess_fuel (fuel : nat) (s : text) : option PResult :=
  match fuel with
  | O => None
  | S fuel' =>
      if contains include_kw s then
        match expand s with
        | POk s' => preprocess_fuel fuel' s'
        | PErr m => Some (PErr m)
        end
      else Some (POk s)
  end.


End Preprocess.

(** Path equality for plain file names (no separator, no "." component),
    where it is equality of the names. *)
Fixpoint name_eqb (a b : text) : bool :=
  match a, b with
  | [], [] => true
  | c :: a', d :: b' => Ascii.eqb c d && name_eqb a' b'
  | _, _ => false
  end.

(** The files of the unit test [preprocess_can_include] (src/wgsl.rs). *)
Definition test_blah := str "#include foo.wgsl" ++ [nl] ++ str "// hello world!".
Definition test_main := str "#include blah.wgsl" ++ [nl] ++ str "// and good night!".
Definition test_files : list (text * text) :=
  [(str "foo.wgsl", str "// first file!"); (str "blah.wgsl", test_blah);
   (str "main.wgsl", test_main)].
Definition test_expected :=
  str "// first file!" ++ [nl] ++ str "// hello world!" ++ [nl] ++ str "// and good night!".

End Wgsl.

(* ================================================================== *)
(** * Theorems *)

Import Camera.

(** Split an equation of glam records into equations of their fields. *)
Ltac vec_eq :=
  lazymatch goal with
  | |- @eq Mat4 _ _ => f_equal; f_equal
  | _ => f_equal
  end.

Lemma to_radians_180_half : to_radians 180 * (1/2) = PI / 2.
Proof. unfold to_radians. field. Qed.

(** C6: [openxr_pose_to_glam] maps the identity pose (orientation
    (0, 0, 0, 1), position (0, 0, 0)) to the zero translation and a
    quaternion equal to plus or minus the identity quaternion (here
    exactly its negation: the 180-degree X correction composed with the
    axis-swapped identity, which is itself a 180-degree X turn). *)
Theorem openxr_pose_to_glam_identity :
  fst (openxr_pose_to_glam Posef_IDENTITY) = Vec3_ZERO /\
  (snd (openxr_pose_to_glam Posef_IDENTITY) = Quat_IDENTITY \/
   snd (openxr_pose_to_glam Posef_IDENTITY) = quat 0 0 0 (-1)).
Proof.
  unfold openxr_pose_to_glam, from_rotation_x, Posef_IDENTITY, Quat_IDENTITY, Vec3_ZERO; cbn.
  rewrite to_radians_180_half, sin_PI2, cos_PI2.
  split; [|right]; vec_eq; ring.
Qed.

(** C7: the rotation and translation computed inline in
    [to_view_proj_matrices_with_xr_views] are, for every pose, the result
    of [openxr_pose_to_glam] on that pose. *)
Theorem xr_inline_pose_is_openxr_pose_to_glam (p : Posef) :
  xr_rotation_translation p = openxr_pose_to_glam p.
Proof. reflexivity. Qed.

Lemma sin_cos_pos_half_pi (a : R) : 0 < a < PI / 2 -> sin a <> 0 /\ cos a <> 0.
Proof.
  intros [H0 H1]; split.
  - apply Rgt_not_eq, sin_gt_0; lra.
  - apply Rgt_not_eq, cos_gt_0; lra.
Qed.

(** C5: for an XR view with the identity pose and symmetric half-angles
    ([angle_left = -angle_right], [angle_down = -angle_up], each in
    (0, pi/2)), the asymmetric projection of
    [to_view_proj_matrices_with_xr_views] equals the [perspective_rh]
    projection of the desktop path for a camera whose vertical field of
    view is [angle_up - angle_down] and whose aspect ratio is
    [tan_width / tan_height]. *)
Theorem xr_projection_symmetric_is_perspective (c : PerspectiveCamera) (v : View)
  (Hpose : pose v = Posef_IDENTITY)
  (Hlr : angle_left (fov v) = - angle_right (fov v))
  (Hdu : angle_down (fov v) = - angle_up (fov v))
  (Hr : 0 < angle_right (fov v) < PI / 2)
  (Hu : 0 < angle_up (fov v) < PI / 2)
  (Hfov : fov_y_rad c = angle_up (fov v) - angle_down (fov v))
  (Haspect : aspect_ratio c =
     (tan (angle_right (fov v)) - tan (angle_left (fov v))) /
     (tan (angle_up (fov v)) - tan (angle_down (fov v))))
  (Hnf : z_near c <> z_far c) :
  xr_proj c (fov v) = perspective_rh (fov_y_rad c) (aspect_ratio c) (z_near c) (z_far c).
Proof.
  destruct v as [p [l r u d]]; cbn in *. subst l d.
  rewrite Hfov, Haspect.
  destruct (sin_cos_pos_half_pi r Hr) as [Hsr Hcr].
  destruct (sin_cos_pos_half_pi u Hu) as [Hsu Hcu].
  unfold xr_proj, perspective_rh, from_cols_array; cbn.
  replace ((1/2) * (u - - u)) with u by field.
  rewrite !tan_neg; unfold tan.
  assert (Hfn : z_far c - z_near c <> 0) by (intro; apply Hnf; lra).
  assert (Hnf' : z_near c - z_far c <> 0) by (intro; apply Hnf; lra).
  vec_eq; field; repeat split; auto; lra.
Qed.

(** A witness of [xr_projection_symmetric_is_perspective]: a 90-degree
    square field of view. *)
Lemma xr_projection_symmetric_is_perspective_witness :
  let v := mk_view Posef_IDENTITY (mk_fov (- (PI / 4)) (PI / 4) (PI / 4) (- (PI / 4))) in
  let c := mk_camera Vec3_ZERO (vec3 0 0 1) Vec3_Y
             ((tan (PI / 4) - tan (- (PI / 4))) / (tan (PI / 4) - tan (- (PI / 4))))
             (PI / 4 - - (PI / 4)) (1 / 20) 1000 in
  xr_proj c (fov v) = perspective_rh (fov_y_rad c) (aspect_ratio c) (z_near c) (z_far c).
Proof.
  intros v c.
  apply (xr_projection_symmetric_is_perspective c v); cbn; try reflexivity;
    pose proof PI_RGT_0; lra.
Defined.

Lemma sqrt_eq_1 (a : R) : a = 1 -> sqrt a = 1.
Proof. intros ->; apply sqrt_1. Qed.

(** The view matrix of a camera at the origin looking along +X. *)
Lemma look_at_rh_along_x :
  look_at_rh Vec3_ZERO (vec3 1 0 0) Vec3_Y =
  from_cols (vec4 0 0 (-1) 0) (vec4 0 1 0 0) (vec4 1 0 0 0) (vec4 0 0 0 1).
Proof.
  unfold look_at_rh, look_to_rh, normalize, length, dot, cross, vsub, vscale,
    Vec3_ZERO, Vec3_Y; cbn.
  repeat match goal with
         | |- context [sqrt ?a] =>
             rewrite (sqrt_eq_1 a) by field
         end.
  vec_eq; field.
Qed.

Lemma perspective_rh_w_row (f a n fr : R) (v : Vec4) :
  w4 (mul_vec4 (perspective_rh f a n fr) v) = - z4 v.
Proof. destruct v; cbn; ring. Qed.

(** C4, as claimed, fails: for a camera looking along +X the two eye
    views of [to_view_proj_matrices] are not the look-at view moved along
    the view's own X axis.  The eye offset is [view * (±ipd/2, 0, 0, 0)],
    a displacement along the world X axis, which this camera sees as its
    depth axis: the last entry of the first matrix is [-ipd/2], where the
    claimed construction gives [0]. *)
Lemma to_view_proj_matrices_not_local_x :
  ~ exists s, (s = 1 \/ s = -1) /\
      to_view_proj_matrices (mk_camera Vec3_ZERO (vec3 1 0 0) Vec3_Y 1 (PI / 2) (1 / 20) 1000)
      = claimed_local_x_matrices
          (mk_camera Vec3_ZERO (vec3 1 0 0) Vec3_Y 1 (PI / 2) (1 / 20) 1000) s.
Proof.
  intros [s [_ H]].
  apply (f_equal (fun l => nth 15 l 0)) in H.
  unfold to_view_proj_matrices, claimed_local_x_matrices in H; cbn - [perspective_rh mul_vec4 look_at_rh] in H.
  rewrite !perspective_rh_w_row, look_at_rh_along_x in H.
  unfold view_local_x_offset, from_translation, ipd in H; cbn in H.
  lra.
Qed.

(** [view.w_axis += view * o] for a direction [o] is [view * T(o)]. *)
Lemma offset_view_from_translation (view : Mat4) (a b c : R) :
  offset_view view (vec4 a b c 0) = mul_mat4 view (from_translation (vec3 a b c)).
Proof.
  destruct view as [[] [] [] []].
  unfold offset_view, from_translation, mul_mat4, mul_vec4, v4add, v4scale; cbn.
  vec_eq; ring.
Qed.

(** C4 (amended): for every camera, [to_view_proj_matrices] returns 32
    floats, the column-major [proj * view_l] followed by [proj * view_r],
    with one shared projection, [view_l = view * T(-ipd/2, 0, 0)] and
    [view_r = view * T(+ipd/2, 0, 0)]: the eye is displaced by [ipd/2]
    each way along the world X axis, [ipd] = 63 mm.  The copy in
    src/main.rs is the same with [ipd] = 68.3 mm. *)
Theorem to_view_proj_matrices_world_x_offsets (c : PerspectiveCamera) :
  let view := look_at_rh (eye c) (target c) (up c) in
  let proj := perspective_rh (fov_y_rad c) (aspect_ratio c) (z_near c) (z_far c) in
  List.length (to_view_proj_matrices c) = 32%nat /\
  to_view_proj_matrices c =
    to_cols_array (mul_mat4 proj (mul_mat4 view (from_translation (vec3 (- (ipd / 2)) 0 0))))
    ++ to_cols_array (mul_mat4 proj (mul_mat4 view (from_translation (vec3 (ipd / 2) 0 0)))) /\
  main_to_view_proj_matrices c =
    to_cols_array (mul_mat4 proj (mul_mat4 view (from_translation (vec3 (- (main_ipd / 2)) 0 0))))
    ++ to_cols_array (mul_mat4 proj (mul_mat4 view (from_translation (vec3 (main_ipd / 2) 0 0)))).
Proof.
  intros view proj.
  unfold to_view_proj_matrices, main_to_view_proj_matrices, v4neg; cbn [map concat x4 y4 z4 w4].
  rewrite app_nil_r.
  replace (- 0) with 0 by ring.
  rewrite !offset_view_from_translation.
  split; [|split]; reflexivity.
Qed.

Import MainState.

Lemma from_unit_scale_cols (t : Vec3) (r : Quat) :
  to_cols_array (mat4_from_affine (from_scale_rotation_translation Vec3_ONE r t)) =
  rotation_translation_cols t r.
Proof.
  destruct r as [qx qy qz qw].
  unfold from_scale_rotation_translation, rotation_translation_cols, mat4_from_affine,
    mat3_from_quat, Vec3_ONE, vscale, extend, to_cols_array, v4_list; cbn.
  rewrite !Rmult_1_r; reflexivity.
Qed.

Lemma write_buffer_at_0 (buffer data : list R) :
  write_buffer buffer 0 data = data ++ skipn (List.length data) buffer.
Proof. reflexivity. Qed.

(** C10: [instances_to_data] emits, for each (translation, rotation) pair
    in order, the 16 column-major entries of the transform of that
    rotation and translation at unit scale (the pair carries no scale), so
    16 floats per pair; [upload_instances] writes that whole array at
    offset 0 of the instance buffer, whatever the buffer held before. *)
Theorem instances_to_data_unit_scale_blocks (poses : list (Vec3 * Quat)) (buffer : list R) :
  instances_to_data poses = concat (map (fun '(t, r) => rotation_translation_cols t r) poses) /\
  List.length (instances_to_data poses) = (16 * List.length poses)%nat /\
  upload_instances buffer poses =
    instances_to_data poses ++ skipn (16 * List.length poses) buffer.
Proof.
  assert (Hd : instances_to_data poses =
               concat (map (fun '(t, r) => rotation_translation_cols t r) poses)).
  { unfold instances_to_data; rewrite flat_map_concat_map; f_equal.
    apply map_ext; intros [t r]; apply from_unit_scale_cols. }
  assert (Hl : List.length (instances_to_data poses) = (16 * List.length poses)%nat).
  { rewrite Hd; clear Hd; induction poses as [|[t [qx qy qz qw]] ps IH]; [reflexivity|].
    cbn [map concat]; rewrite length_app, IH.
    unfold rotation_translation_cols; cbn; lia. }
  split; [exact Hd | split; [exact Hl |]].
  unfold upload_instances; rewrite write_buffer_at_0, Hl; reflexivity.
Qed.

Import Blit.

(** C9, as claimed, fails: the blitter's sampler does not minify linearly
    and magnify with nearest filtering. *)
Lemma blit_sampler_not_min_linear_mag_nearest :
  ~ (min_filter blit_sampler = Linear /\ mag_filter blit_sampler = Nearest).
Proof. cbn; intros [H _]; discriminate H. Qed.

(** C9 (amended): the sampler of [BlitState::new] magnifies linearly and
    minifies (and selects mip levels) with nearest filtering, clamping to
    the edge on every axis; the copy in src/main.rs is the same. *)
Theorem blit_sampler_mag_linear_min_nearest :
  mag_filter blit_sampler = Linear /\ min_filter blit_sampler = Nearest /\
  mipmap_filter blit_sampler = Nearest /\
  address_mode_u blit_sampler = ClampToEdge /\ address_mode_v blit_sampler = ClampToEdge /\
  address_mode_w blit_sampler = ClampToEdge /\
  main_blit_sampler = blit_sampler.
Proof. repeat split. Qed.

Import Xr.

(** Unfold the monad and split on every runtime answer. *)
Ltac run_monad :=
  unfold post_frame, get_or_insert_swapchain, locate_hand_pose, post_queue_submit,
    issue, issue_unwrap, record, set_swapchain, set_running, set_queue, bind, ret, get,
    panic in *;
  cbn in *;
  repeat (match goal with
          | |- context [match ?e with _ => _ end] =>
              lazymatch e with
              | context [match _ with _ => _ end] => fail
              | _ => destruct e eqn:?
              end
          end; cbn in *).

(** C3: when the frame state says not to render, [post_frame] issues a
    single call, [frame_stream.end] at the predicted display time with no
    layer, leaves the swapchain (and everything else) as it was, and
    returns [PostFrameData::default()] (or the error of that call). *)
Theorem post_frame_not_rendering (rt : Runtime) (fs : FrameState) (st : XrState)
  (Hskip : should_render fs = false) :
  post_frame rt fs st =
    (if rt_fails rt (FrameEnd (predicted_display_time fs) [])
     then Err (FrameEnd (predicted_display_time fs) [])
     else Ok post_frame_default,
     mk_xr (session_running st) (swapchain st) (views st) (event_queue st)
           (calls st ++ [FrameEnd (predicted_display_time fs) []])).
Proof.
  unfold post_frame; rewrite Hskip; cbn.
  unfold issue, record, bind, ret; cbn.
  destruct (rt_fails rt _); reflexivity.
Qed.

Lemma count_calls_app (f : Call -> bool) (l1 l2 : list Call) :
  count_calls f (l1 ++ l2) = (count_calls f l1 + count_calls f l2)%nat.
Proof. unfold count_calls; rewrite filter_app, length_app; reflexivity. Qed.

(** C8: a hand's pose is [Some] in the result of [post_frame] only if its
    pose action reports active; when the action is inactive the pose is
    [None] and no [locate] of that hand's space is issued, whatever the
    outcome of the call. *)
Theorem post_frame_hand_gating (rt : Runtime) (fs : FrameState) (st : XrState) (h : Hand) :
  (forall pd, fst (post_frame rt fs st) = Ok pd -> hand_pose pd h <> None ->
              rt_active rt h = true) /\
  (rt_active rt h = false ->
     count_calls (is_locate_space h) (calls (snd (post_frame rt fs st))) =
     count_calls (is_locate_space h) (calls st) /\
     forall pd, fst (post_frame rt fs st) = Ok pd -> hand_pose pd h = None).
Proof.
  assert (Hgate : rt_active rt h = false ->
     count_calls (is_locate_space h) (calls (snd (post_frame rt fs st))) =
     count_calls (is_locate_space h) (calls st) /\
     forall pd, fst (post_frame rt fs st) = Ok pd -> hand_pose pd h = None).
  { intros Hoff.
    destruct h; run_monad;
      try congruence;
      split; intros; unfold count_calls in *; rewrite ?filter_app, ?length_app;
      try (match goal with H : Ok _ = Ok _ |- _ => injection H as <- end);
      cbn; try lia; try congruence. }
  split; [|exact Hgate].
  intros pd Hpd Hsome.
  destruct (rt_active rt h) eqn:Ha; [reflexivity|].
  exfalso; apply Hsome, (proj2 (Hgate eq_refl)), Hpd.
Qed.

(** C3 witness: a frame the runtime tells not to render. *)
Lemma post_frame_not_rendering_witness :
  let rt := mk_runtime [] (mk_frame_state 7%Z false) (fun _ => false) (fun _ => true)
              (fun _ => Posef_IDENTITY) [] 3 0 in
  let st := mk_xr true None [(1440, 1600)%Z] [] [FrameBegin] in
  post_frame rt (rt_frame rt) st =
    (Ok post_frame_default, mk_xr true None [(1440, 1600)%Z] [] [FrameBegin; FrameEnd 7 []]).
Proof.
  intros rt st.
  exact (post_frame_not_rendering rt (rt_frame rt) st eq_refl).
Defined.

Lemma frame_marks_app (l1 l2 : list Call) :
  frame_marks (l1 ++ l2) = frame_marks l1 ++ frame_marks l2.
Proof. apply flat_map_app. Qed.

Lemma count_events_app (f : Event -> bool) (l1 l2 : list Event) :
  count_events f (l1 ++ l2) = (count_events f l1 + count_events f l2)%nat.
Proof. unfold count_events; rewrite filter_app, length_app; reflexivity. Qed.

(** The polling loop of [pre_frame]: it consumes a prefix of the queue,
    issues one [session.begin] per READY and one [session.end] per
    STOPPING event it consumes, sets [session_running] accordingly, and
    issues no frame call. *)
Lemma handle_events_spec (rt : Runtime) (q : list Event) :
  forall st o st', event_queue st = q -> handle_events rt q st = (o, st') ->
  exists consumed d,
    q = consumed ++ event_queue st' /\
    calls st' = calls st ++ d /\
    frame_marks d = [] /\
    count_calls is_session_begin d = count_events is_ready consumed /\
    count_calls is_session_end d = count_events is_stopping consumed /\
    swapchain st' = swapchain st /\ views st' = views st /\
    (forall b, o = Ok b -> session_running st' = running_after (session_running st) consumed) /\
    o <> Panic.
Proof.
  induction q as [|e q IH]; intros st o st' Hq Hrun.
  - cbn in Hrun; unfold issue, record, bind, ret in Hrun; cbn in Hrun.
    destruct (rt_fails rt PollEvent); injection Hrun as <- <-;
      exists [], [PollEvent]; cbn; rewrite Hq;
      repeat split; try reflexivity; congruence.
  - cbn [handle_events] in Hrun; unfold issue, record, bind, ret, set_queue in Hrun; cbn in Hrun.
    destruct (rt_fails rt PollEvent).
    + injection Hrun as <- <-.
      exists [], [PollEvent]; cbn; rewrite Hq; repeat split; try reflexivity; congruence.
    + cbn [session_running swapchain views event_queue calls] in Hrun.
      set (st1 := mk_xr (session_running st) (swapchain st) (views st) q
                        (calls st ++ [PollEvent])) in Hrun.
      (* the event [e], then possibly the rest of the queue *)
      assert (Hev : exists o1 st2 d1,
                 handle_event rt e st1 = (o1, st2) /\
                 calls st2 = calls st1 ++ d1 /\ frame_marks d1 = [] /\
                 count_calls is_session_begin d1 = count_events is_ready [e] /\
                 count_calls is_session_end d1 = count_events is_stopping [e] /\
                 swapchain st2 = swapchain st1 /\ views st2 = views st1 /\
                 event_queue st2 = q /\
                 (forall b, o1 = Ok b -> session_running st2 = running_after (session_running st1) [e]) /\
                 o1 <> Panic).
      { destruct e as [[]| | |];
          unfold handle_event, issue, record, set_running, bind, ret; cbn;
          try (destruct (rt_fails rt _));
          eexists; eexists; eexists; (split; [reflexivity|]);
          cbn; repeat split;
          try match goal with |- _ ++ _ = _ ++ ?d => is_evar d; reflexivity end;
          try match goal with |- _ = _ ++ ?d => is_evar d; rewrite app_nil_r; reflexivity end;
          cbn; try reflexivity; try congruence.
        all: try (intros b Hb; discriminate Hb).
      }
      destruct Hev as (o1 & st2 & d1 & Hh & Hc2 & Hm1 & Hb1 & He1 & Hs2 & Hv2 & Hq2 & Hr2 & Hp1).
      rewrite Hh in Hrun.
      destruct o1 as [cont|c|]; [|injection Hrun as <- <-|congruence].
      * destruct cont.
        -- destruct (IH st2 o st' Hq2 Hrun)
             as (cons & d2 & Hq' & Hc' & Hm2 & Hb2 & He2 & Hs' & Hv' & Hr' & Hp').
           exists (e :: cons), ([PollEvent] ++ d1 ++ d2).
           rewrite Hq', Hc', Hc2, !frame_marks_app, !count_calls_app, Hm1, Hm2,
             Hb1, He1, Hb2, He2, Hs', Hs2, Hv', Hv2.
           cbn [st1 calls swapchain views session_running].
           repeat split; auto.
           ++ rewrite <- !app_assoc; reflexivity.
           ++ unfold count_events; cbn; destruct (is_ready e); reflexivity.
           ++ unfold count_events; cbn; destruct (is_stopping e); reflexivity.
           ++ intros b Hb; rewrite (Hr' b Hb), (Hr2 true eq_refl); reflexivity.
        -- unfold ret in Hrun; injection Hrun as <- <-.
           exists [e], ([PollEvent] ++ d1).
           rewrite Hc2, !frame_marks_app, !count_calls_app, Hm1, Hb1, He1, Hs2, Hv2, Hq2.
           cbn [st1 calls swapchain views session_running].
           repeat split; try reflexivity; try (rewrite app_assoc; reflexivity); try congruence.
           intros b _; apply (Hr2 false eq_refl).
      * exists [e], ([PollEvent] ++ d1).
        rewrite Hc2, !frame_marks_app, !count_calls_app, Hm1, Hb1, He1, Hs2, Hv2, Hq2.
        cbn [st1 calls swapchain views session_running].
        repeat split; try reflexivity; try (rewrite app_assoc; reflexivity); try congruence.
Qed.


(** [pre_frame]: the polling loop's guarantees, and at most one frame
    call, [frame_stream.begin], issued exactly when a frame state is
    returned (or that call itself fails). *)
Lemma pre_frame_spec (rt : Runtime) (st : XrState) o st' :
  pre_frame rt st = (o, st') ->
  exists consumed d,
    event_queue st = consumed ++ event_queue st' /\
    calls st' = calls st ++ d /\
    count_calls is_session_begin d = count_events is_ready consumed /\
    count_calls is_session_end d = count_events is_stopping consumed /\
    swapchain st' = swapchain st /\ views st' = views st /\
    (forall r, o = Ok r -> session_running st' = running_after (session_running st) consumed) /\
    o <> Panic /\
    ((frame_marks d = [] /\ (o = Ok None \/ exists c, o = Err c)) \/
     (frame_marks d = [MBegin] /\
      (o = Ok (Some (rt_frame rt)) \/ (o = Err FrameBegin /\ rt_fails rt FrameBegin = true)))).
Proof.
  intros Hrun.
  unfold pre_frame, bind, get in Hrun.
  destruct (handle_events rt (event_queue st) st) as [o1 st1] eqn:E.
  destruct (handle_events_spec rt (event_queue st) st o1 st1 eq_refl E)
    as (cons & d1 & Hq1 & Hc1 & Hm1 & Hb1 & He1 & Hs1 & Hv1 & Hr1 & Hp1).
  exists cons.
  assert (Hcount : forall c, is_session_begin c = false ->
            is_session_end c = false ->
            count_calls is_session_begin (d1 ++ [c]) = count_events is_ready cons /\
            count_calls is_session_end (d1 ++ [c]) = count_events is_stopping cons).
  { intros c Hb He; rewrite !count_calls_app, Hb1, He1.
    unfold count_calls; cbn; rewrite Hb, He; cbn; split; lia. }
  destruct o1 as [cont|c|]; [|injection Hrun as <- <-|congruence].
  2: { exists d1; split; [exact Hq1|]; split; [exact Hc1|].
       do 4 (split; [assumption|]). split; [intros r Hr; discriminate Hr|].
       split; [congruence|]. left; split; [exact Hm1|]. right; eauto. }
  destruct cont; cbn in Hrun.
  2: { unfold ret in Hrun; injection Hrun as <- <-.
       exists d1; split; [exact Hq1|]; split; [exact Hc1|].
       do 4 (split; [assumption|]). split; [intros r _; apply (Hr1 false eq_refl)|].
       split; [congruence|]. left; split; [exact Hm1|]. left; reflexivity. }
  destruct (session_running st1) eqn:Hrun1; cbn in Hrun.
  - unfold issue, record, ret in Hrun; cbn in Hrun.
    destruct (rt_fails rt FrameWait); cbn in Hrun.
    + injection Hrun as <- <-.
      exists (d1 ++ [FrameWait]); cbn.
      destruct (Hcount FrameWait eq_refl eq_refl) as [Hb He].
      split; [exact Hq1|]; split; [rewrite Hc1, app_assoc; reflexivity|].
      split; [exact Hb|]; split; [exact He|]. split; [exact Hs1|]; split; [exact Hv1|].
      split; [intros r Hr; discriminate Hr|]. split; [congruence|].
      left; rewrite frame_marks_app, Hm1; split; [reflexivity|]. right; eauto.
    + assert (Hm : frame_marks (d1 ++ [FrameWait; FrameBegin]) = [MBegin])
        by (rewrite frame_marks_app, Hm1; reflexivity).
      assert (Hb : count_calls is_session_begin (d1 ++ [FrameWait; FrameBegin]) =
                   count_events is_ready cons)
        by (rewrite count_calls_app, Hb1; unfold count_calls; cbn; lia).
      assert (He : count_calls is_session_end (d1 ++ [FrameWait; FrameBegin]) =
                   count_events is_stopping cons)
        by (rewrite count_calls_app, He1; unfold count_calls; cbn; lia).
      destruct (rt_fails rt FrameBegin) eqn:Hfb; cbn in Hrun; injection Hrun as <- <-;
        exists (d1 ++ [FrameWait; FrameBegin]); cbn;
        (split; [exact Hq1|]); (split; [rewrite Hc1, <- !app_assoc; reflexivity|]);
        (split; [exact Hb|]); (split; [exact He|]); (split; [exact Hs1|]);
        (split; [exact Hv1|]).
      * split; [intros r Hr; discriminate Hr|]. split; [congruence|].
        right; split; [exact Hm|]. right; split; [reflexivity | first [exact Hfb | reflexivity]].
      * split; [intros r _; cbn; try rewrite Hrun1; exact (Hr1 true eq_refl)|].
        split; [congruence|].
        right; split; [exact Hm|]. left; reflexivity.
  - unfold record, ret in Hrun; cbn in Hrun; injection Hrun as <- <-.
    exists (d1 ++ [Sleep]); cbn.
    destruct (Hcount Sleep eq_refl eq_refl) as [Hb He].
    split; [exact Hq1|]; split; [rewrite Hc1, <- app_assoc; reflexivity|].
    split; [exact Hb|]; split; [exact He|]. split; [exact Hs1|]; split; [exact Hv1|].
    split; [intros r _; cbn; try rewrite Hrun1; exact (Hr1 true eq_refl)|].
    split; [congruence|].
    left; rewrite frame_marks_app, Hm1; split; [reflexivity|]. left; reflexivity.
Qed.

(** Split a hypothesis on every runtime answer it depends on. *)
Ltac split_hyp H :=
  unfold post_frame, get_or_insert_swapchain, locate_hand_pose, post_queue_submit,
    issue, issue_unwrap, record, set_swapchain, bind, ret, get, panic in H;
  simpl in H;
  repeat (match type of H with
          | context [match ?e with _ => _ end] =>
              lazymatch e with
              | context [match _ with _ => _ end] => fail
              | _ => destruct e eqn:?
              end
          end; simpl in H).

(** A run of calls [d] appended to the log. *)
Ltac leaf H :=
  injection H as <- <-;
  first [ exists []; rewrite app_nil_r; split; [reflexivity|]
        | eexists; split; [rewrite <- ?app_assoc; reflexivity|] ].

(** [post_frame] touches neither the session nor the event queue. *)
Lemma post_frame_session (rt : Runtime) (fs : FrameState) (st : XrState) o st' :
  post_frame rt fs st = (o, st') ->
  exists d, calls st' = calls st ++ d /\
    count_calls is_session_begin d = 0%nat /\ count_calls is_session_end d = 0%nat /\
    session_running st' = session_running st /\ event_queue st' = event_queue st /\
    views st' = views st.
Proof.
  intros H; unfold post_frame in H; destruct (should_render fs) eqn:Hsr; split_hyp H;
    leaf H; simpl; repeat split; first [reflexivity | congruence].
Qed.










(** ** C1 *)


Import Scenario.




(** Evaluate the coordinator on a state whose call log is not concrete. *)
Ltac eval_log := repeat progress (cbv -[app]; cbn [app]).

(** A frame tick of a running session whose swapchain exists. *)
Lemma frame_tick_steady (st : XrState) (t : Z) :
  session_running st = true -> swapchain st = Some sc1 -> views st = [(1, 1)%Z] ->
  event_queue st = [] ->
  exists d, tick (runtime [] t no_fail) st =
    (Ok tt, mk_xr true (Some sc1) [(1, 1)%Z] [] (calls st ++ d)) /\
    count_calls is_session_begin d = 0%nat /\ count_calls is_session_end d = 0%nat.
Proof.
  destruct st as [r sw v q cs]; cbn; intros -> -> -> ->.
  eexists; split; [eval_log; rewrite <- !app_assoc; reflexivity | split; reflexivity].
Qed.

(** The STOPPING tick of a running session. *)
Lemma stopping_tick (st : XrState) :
  session_running st = true -> swapchain st = Some sc1 -> views st = [(1, 1)%Z] ->
  event_queue st = [] ->
  exists d, tick (runtime [SessionStateChanged STOPPING] 0 no_fail) st =
    (Ok tt, mk_xr false (Some sc1) [(1, 1)%Z] [] (calls st ++ d)) /\
    count_calls is_session_begin d = 0%nat /\ count_calls is_session_end d = 1%nat.
Proof.
  destruct st as [r sw v q cs]; cbn; intros -> -> -> ->.
  eexists; split; [eval_log; rewrite <- !app_assoc; reflexivity | split; reflexivity].
Qed.

Lemma frames_then_stopping (ts : list Z) (st : XrState) :
  session_running st = true -> swapchain st = Some sc1 -> views st = [(1, 1)%Z] ->
  event_queue st = [] ->
  exists d, run (map (fun t => runtime [] t no_fail) ts ++
                 [runtime [SessionStateChanged STOPPING] 0 no_fail]) st =
    (Ok tt, mk_xr false (Some sc1) [(1, 1)%Z] [] (calls st ++ d)) /\
    count_calls is_session_begin d = 0%nat /\ count_calls is_session_end d = 1%nat.
Proof.
  revert st; induction ts as [| t ts IH]; intros st Hr Hs Hv Hq; cbn [map app run].
  - destruct (stopping_tick st Hr Hs Hv Hq) as (d & E & Hb & He).
    unfold bind; rewrite E; unfold ret.
    exists d; auto.
  - destruct (frame_tick_steady st t Hr Hs Hv Hq) as (d1 & E1 & Hb1 & He1).
    unfold bind at 1; rewrite E1.
    destruct (IH (mk_xr true (Some sc1) [(1, 1)%Z] [] (calls st ++ d1))
                 eq_refl eq_refl eq_refl eq_refl) as (d2 & E2 & Hb2 & He2).
    rewrite E2; cbn [calls]; exists (d1 ++ d2).
    rewrite <- app_assoc, !count_calls_app, Hb1, He1, Hb2, He2; auto.
Qed.

(** ** C2 *)

(** C2: every event [pre_frame] polls is taken off the runtime's queue,
    and it calls [session.begin] once per READY event and [session.end]
    once per STOPPING event among them; when it returns [Ok],
    [session_running] is set by the last of these events (true for READY,
    false for STOPPING).  In particular a session that becomes READY,
    draws any number of frames and becomes STOPPING calls
    [session.begin] exactly once and [session.end] exactly once. *)
Theorem pre_frame_session_begin_end :
  (forall rt st o st', pre_frame rt st = (o, st') ->
   exists consumed d,
     event_queue st = consumed ++ event_queue st' /\
     calls st' = calls st ++ d /\
     count_calls is_session_begin d = count_events is_ready consumed /\
     count_calls is_session_end d = count_events is_stopping consumed /\
     (forall r, o = Ok r -> session_running st' = running_after (session_running st) consumed)) /\
  (forall ts, let '(o, st') := run (ready_frames_stopping ts) st_idle in
   o = Ok tt /\ session_running st' = false /\
   count_calls is_session_begin (calls st') = 1%nat /\
   count_calls is_session_end (calls st') = 1%nat).
Proof.
  split.
  - intros rt st o st' H.
    destruct (pre_frame_spec rt st o st' H)
      as (consumed & d & Hq & Hc & Hb & He & _ & _ & Hr & _).
    exists consumed, d; auto.
  - intros ts; unfold ready_frames_stopping; cbn [run]; unfold bind at 1.
    destruct (tick (runtime [SessionStateChanged READY] 0 no_fail) st_idle) as [o1 st1] eqn:E1.
    cbv in E1; injection E1 as <- Hst1.
    destruct (frames_then_stopping ts st1) as (d & E & Hb & He);
      try (subst st1; reflexivity).
    rewrite E; subst st1; cbn [calls session_running]; rewrite !count_calls_app, Hb, He.
    split; [reflexivity | split; [reflexivity | split; reflexivity]].
Qed.

(* ------------------------------------------------------------------ *)
(** ** src/xr.rs: poses *)

(** X6: [openxr_pose_to_glam] negates the x and z coordinates of the
    position, and turns the orientation (x, y, z, w) into the quaternion
    (x, -y, z, -w); as a rotation, it is the runtime's orientation seen
    through the same half turn about the y axis: it rotates v as the
    runtime's orientation rotates v with x and z negated, x and z of the
    result negated again. *)
Theorem openxr_pose_to_glam_half_turn (p : Posef) :
  fst (openxr_pose_to_glam p) = vec3 (- x (position p)) (y (position p)) (- z (position p)) /\
  snd (openxr_pose_to_glam p) =
    quat (qx (orientation p)) (- qy (orientation p)) (qz (orientation p)) (- qw (orientation p)) /\
  forall v, qrot (snd (openxr_pose_to_glam p)) v =
    let flip a := vec3 (- x a) (y a) (- z a) in flip (qrot (orientation p) (flip v)).
Proof.
  destruct p as [[a b c d] [px py pz]].
  unfold openxr_pose_to_glam, from_rotation_x, qmul; cbn.
  rewrite to_radians_180_half, sin_PI2, cos_PI2.
  split; [reflexivity | split; [f_equal; ring|]].
  intros [vx vy vz]; unfold qrot, vadd, vscale, dot, cross; cbn; f_equal; ring.
Qed.

(* ------------------------------------------------------------------ *)
(** ** src/xr.rs: [pre_frame] and [post_frame] *)




Lemma handle_events_true (rt : Runtime) (q : list Event) :
  forall st st', event_queue st = q -> handle_events rt q st = (Ok true, st') ->
  event_queue st' = [] /\ (forall e, In e q -> stops_polling e = false).
Proof.
  induction q as [|e q IH]; intros st st' Hq H.
  - cbn in H; unfold issue, record, bind, ret in H; cbn in H.
    destruct (rt_fails rt PollEvent); [discriminate H|].
    injection H as <-; cbn; split; [exact Hq | intros e []].
  - cbn [handle_events] in H; unfold issue, record, set_queue, bind at 1, ret at 1 in H; cbn in H.
    destruct (rt_fails rt PollEvent); [discriminate H|]; cbn in H.
    unfold bind in H.
    set (st1 := mk_xr (session_running st) (swapchain st) (views st) q
                      (calls st ++ [PollEvent])) in H.
    assert (Hev : forall o st2, handle_event rt e st1 = (o, st2) ->
              event_queue st2 = q /\ (o = Ok true -> stops_polling e = false)).
    { intros o st2 E; destruct e as [[]| | |];
        unfold handle_event, issue, record, set_running, bind, ret in E; cbn in E;
        try destruct (rt_fails rt _); injection E as <- <-;
        split; try reflexivity; intros Ho; try discriminate Ho; reflexivity. }
    destruct (handle_event rt e st1) as [o st2] eqn:E.
    destruct (Hev o st2 eq_refl) as [Hq2 Ho].
    destruct o as [[]|c|]; try discriminate H.
    destruct (IH st2 st' Hq2 H) as [H1 H2].
    split; [exact H1|].
    intros e' [<-|Hin]; [exact (Ho eq_refl) | exact (H2 e' Hin)].
Qed.

(** X8: [pre_frame] returns a frame state only when it has drained the
    whole event queue without meeting an EXITING, LOSS_PENDING or
    instance-loss event and the session is running afterwards; the frame
    state is the one [frame_wait.wait] returned. *)
Theorem pre_frame_some (rt : Runtime) (st st' : XrState) (fs : FrameState) :
  pre_frame rt st = (Ok (Some fs), st') ->
  fs = rt_frame rt /\ session_running st' = true /\ event_queue st' = [] /\
  (forall e, In e (event_queue st) -> stops_polling e = false).
Proof.
  intros H; unfold pre_frame, bind at 1, Xr.get in H; cbv beta iota in H.
  unfold bind at 1 in H.
  destruct (handle_events rt (event_queue st) st) as [o1 st1] eqn:E.
  destruct o1 as [[]|c|]; try discriminate H; cbn in H.
  destruct (handle_events_true rt (event_queue st) st st1 eq_refl E) as [Hq Hs].
  unfold bind, Xr.get in H.
  destruct (session_running st1) eqn:Hr; cbn in H.
  - unfold issue, record, bind, ret in H; cbn in H.
    destruct (rt_fails rt FrameWait); [discriminate H|]; cbn in H.
    destruct (rt_fails rt FrameBegin); [discriminate H|].
    injection H as <- <-; cbn; auto.
  - unfold record, ret in H; discriminate H.
Qed.

(** X9: [post_frame] creates the swapchain at most once.  An existing
    swapchain is kept and no swapchain is created.  Without one, a frame to
    render with no view configuration panics at [self.views[0]] before any
    call; with views, a call of [post_frame] that does not panic first
    creates the swapchain at the resolution of view 0 with the runtime's
    image count, as its first two calls, and keeps it even when a later
    call of the frame fails. *)
Theorem post_frame_swapchain (rt : Runtime) (fs : FrameState) (st : XrState) o st' :
  post_frame rt fs st = (o, st') ->
  exists d, calls st' = calls st ++ d /\
  (forall sc, swapchain st = Some sc ->
     swapchain st' = Some sc /\ forall w h, ~ In (CreateSwapchain w h) d) /\
  (swapchain st = None -> should_render fs = true -> views st = [] -> o = Panic /\ d = []) /\
  (forall w h vs, swapchain st = None -> should_render fs = true -> views st = (w, h) :: vs ->
     o <> Panic ->
     swapchain st' = Some (mk_swapchain (w, h) (rt_image_count rt)) /\
     exists d1, d = CreateSwapchain w h :: EnumerateImages :: d1 /\
                forall w' h', ~ In (CreateSwapchain w' h') d1).
Proof.
  intros H; unfold post_frame in H; destruct (should_render fs) eqn:Hsr; split_hyp H;
    leaf H; cbn;
    (split; [intros sc Hsc; (split; [congruence|]); intros w0 h0 Hin; cbn in Hin;
             repeat (destruct Hin as [Hin|Hin]; [first [discriminate Hin | congruence]|]);
             exact Hin |]);
    (split; [intros Hn Hs Hv; first [discriminate Hn | split; reflexivity | congruence] |]);
    intros w0 h0 vs Hn Hs Hv Hp; try discriminate Hn; try congruence;
    rewrite Hv in *;
    match goal with E : (_, _) :: _ = (_, _) :: _ |- _ => injection E as <- <- <- end;
    (split; [reflexivity | eexists; split; [reflexivity|]]);
    intros w' h' Hin; cbn in Hin; repeat (destruct Hin as [Hin|Hin]; [discriminate Hin|]);
    exact Hin.
Qed.

Lemma app_snoc_intro (l s : list Call) (e : Call) :
  s <> [] -> last s e = e -> exists d, l ++ s = l ++ d ++ [e].
Proof.
  intros Hs Hl; exists (removelast s); f_equal.
  rewrite <- Hl; apply app_removelast_last; exact Hs.
Qed.

(** X10: [post_frame] blits into swapchain image [image_index] only when
    the index is below the swapchain's image count: a rendered frame it
    returns has the blit into that image as its last call.  When the
    runtime's calls succeed and [acquire_image] returns an index beyond
    the swapchain's images (for instance when it enumerated no image),
    [buffers[image_index]] panics. *)
Theorem post_frame_image_index (rt : Runtime) (fs : FrameState) (st : XrState) o st' :
  post_frame rt fs st = (o, st') ->
  (forall pd, o = Ok pd -> should_render fs = true ->
     exists sc, swapchain st' = Some sc /\ (rt_image_index rt < sc_buffers sc)%nat /\
       exists d, calls st' = calls st ++ d ++ [EncodeBlit (rt_image_index rt)]) /\
  ((forall c, rt_fails rt c = false) -> should_render fs = true ->
     forall sc, swapchain st' = Some sc -> (sc_buffers sc <= rt_image_index rt)%nat ->
     o = Panic).
Proof.
  intros H; unfold post_frame in H; destruct (should_render fs) eqn:Hsr; split_hyp H;
    injection H as <- <-; cbn;
    (split; [intros pd Hpd Hsr1; first [discriminate Hpd | discriminate Hsr1 |
             (eexists; split; [first [eassumption | reflexivity]|]);
             (split; [cbn; apply Nat.ltb_lt; assumption|]);
             rewrite <- !app_assoc; apply app_snoc_intro; [discriminate | reflexivity]] |]);
    intros Hok Hsr2 sc Hsc Hle; try reflexivity; try discriminate Hsr2;
    try match goal with E : rt_fails _ ?c = true |- _ => rewrite Hok in E; discriminate E end;
    match goal with E : (_ <? _) = true |- _ => apply Nat.ltb_lt in E end;
    first [rewrite Hsc in *; injection Heqo0 as -> | injection Hsc as <-]; cbn in *; lia.
Qed.


Lemma pre_frame_some_witness :
  let rt := runtime [] 7 no_fail in
  let st := mk_xr false None [(1, 1)%Z] [SessionStateChanged READY] [] in
  fst (pre_frame rt st) = Ok (Some (rt_frame rt)) /\
  session_running (snd (pre_frame rt st)) = true /\ event_queue (snd (pre_frame rt st)) = [].
Proof.
  intros rt st.
  assert (E : pre_frame rt st = (Ok (Some (rt_frame rt)), snd (pre_frame rt st)))
    by reflexivity.
  destruct (pre_frame_some rt st (snd (pre_frame rt st)) (rt_frame rt) E) as (_ & H1 & H2 & _).
  rewrite E; split; [reflexivity | split; assumption].
Defined.

Lemma post_frame_swapchain_witness :
  let rt := runtime [] 7 no_fail in
  swapchain (snd (post_frame rt (rt_frame rt) st_running)) = Some (mk_swapchain (1, 1)%Z 3).
Proof.
  intros rt.
  assert (E : post_frame rt (rt_frame rt) st_running =
              (fst (post_frame rt (rt_frame rt) st_running),
               snd (post_frame rt (rt_frame rt) st_running))) by reflexivity.
  destruct (post_frame_swapchain rt (rt_frame rt) st_running _ _ E) as (d & _ & _ & _ & H).
  apply (H 1%Z 1%Z []); [reflexivity | reflexivity | reflexivity | cbv; discriminate].
Defined.

Lemma post_frame_image_index_witness :
  let rt := mk_runtime [] (mk_frame_state 7 true) no_fail (fun _ => false)
              (fun _ => Posef_IDENTITY) [view0; view0] 3 5 in
  fst (post_frame rt (rt_frame rt) st_running) = Panic.
Proof.
  intros rt.
  assert (E : post_frame rt (rt_frame rt) st_running =
              (fst (post_frame rt (rt_frame rt) st_running),
               snd (post_frame rt (rt_frame rt) st_running))) by reflexivity.
  destruct (post_frame_image_index rt (rt_frame rt) st_running _ _ E) as [_ H].
  apply (H (fun _ => eq_refl) eq_refl (mk_swapchain (1, 1)%Z 3)); [reflexivity | cbn; lia].
Defined.

(* ------------------------------------------------------------------ *)
(** ** src/xr.rs: the Vulkan version check of [initialize_with_wgpu] *)

Import XrInit.

(** X11: for a maximum supported version that is a [u64], the check of
    [initialize_with_wgpu] lets the runtime through exactly when its
    minimum supported Vulkan version is at most 1.1.0 and its maximum is
    at least 1.0.0: a runtime whose maximum is a 1.0.x version, below the
    targeted 1.1.0, passes the check. *)
Theorem xr_vulkan_version_gate (mn mx : Z) (Hmx : (0 <= mx < 2 ^ 64)%Z) :
  xr_vulkan_version_rejected mn mx = false <->
  (mn <= version_new 1 1 0 /\ version_new 1 0 0 <= mx)%Z.
Proof.
  unfold xr_vulkan_version_rejected, vk_target_version_xr.
  assert (Hmaj : version_major mx = (mx / 2 ^ 48)%Z).
  { unfold version_major. rewrite Z.land_ones, Z.shiftr_div_pow2 by lia.
    apply Z.mod_small; split; [apply Z.div_pos; lia|].
    apply Z.div_lt_upper_bound; lia. }
  rewrite Hmaj.
  change (version_major (version_new 1 1 0)) with 1%Z.
  change (version_new 1 1 0) with (2 ^ 48 + 2 ^ 32)%Z.
  change (version_new 1 0 0) with (2 ^ 48)%Z.
  rewrite orb_false_iff, !Z.ltb_ge.
  assert (1 <= mx / 2 ^ 48 <-> 2 ^ 48 <= mx)%Z.
  { split; intros H.
    - pose proof (Z.mul_div_le mx (2 ^ 48)); nia.
    - apply Z.div_le_lower_bound; lia. }
  intuition lia.
Qed.

Lemma xr_vulkan_version_gate_witness :
  (0 <= version_new 1 0 5 < 2 ^ 64)%Z /\
  xr_vulkan_version_rejected (version_new 1 0 0) (version_new 1 0 5) = false.
Proof.
  split; [vm_compute; split; [discriminate | reflexivity]|].
  apply (xr_vulkan_version_gate (version_new 1 0 0) (version_new 1 0 5));
    vm_compute; split; first [discriminate | reflexivity].
Defined.

(* ------------------------------------------------------------------ *)
(** ** src/main_state.rs: the instance buffer layout *)

Lemma skipn_flat_map_16 (f : Vec3 * Quat -> list R)
  (Hf : forall p, List.length (f p) = 16%nat) :
  forall n ps, skipn (16 * n) (flat_map f ps) = flat_map f (skipn n ps).
Proof.
  induction n as [|n IH]; intros [|p ps]; try reflexivity.
  cbn [skipn flat_map].
  replace (16 * S n)%nat with (List.length (f p) + 16 * n)%nat by (rewrite Hf; lia).
  rewrite skipn_app, skipn_all2 by lia; cbn [app].
  replace (List.length (f p) + 16 * n - List.length (f p))%nat with (16 * n)%nat by lia.
  exact (IH ps).
Qed.

Lemma skipn_nth_cons {A} (d : A) :
  forall (l : list A) n, (n < List.length l)%nat -> skipn n l = nth n l d :: skipn (S n) l.
Proof.
  induction l as [|a l IH]; intros [|n] Hn; cbn in *; try lia; [reflexivity|].
  apply IH; lia.
Qed.

(** X12: the instance buffer layout of [MainState::new] matches
    [instances_to_data]: for every instance [n] of the data and every
    [i < 4], the attribute at shader location [2 + i] is a [Float32x4]
    that reads column [i] of the [n]-th instance's transform. *)
Theorem instance_attribute_column (poses : list (Vec3 * Quat)) (n i : nat)
  (Hn : (n < List.length poses)%nat) (Hi : (i < 4)%nat) :
  exists a, nth_error instance_attributes i = Some a /\
    shader_location a = (2 + i)%nat /\ attr_format a = Float32x4 /\
    fetch_attribute (instances_to_data poses) instance_array_stride n a =
      nth i (instance_columns (nth n poses (Vec3_ZERO, Quat_IDENTITY))) [].
Proof.
  exists (mk_attribute (i * size_of_f32 * 4) (2 + i) Float32x4).
  split; [unfold instance_attributes; rewrite nth_error_map, nth_error_seq;
          destruct (Nat.ltb_spec i 4); [reflexivity | lia]|].
  split; [reflexivity | split; [reflexivity|]].
  unfold fetch_attribute, instance_array_stride, size_of_f32;
    cbn [attr_offset attr_format format_components].
  replace ((n * (4 * 4 * 4) + i * 4 * 4) / 4)%nat with (4 * i + 16 * n)%nat
    by (apply Nat.div_unique with (r := 0%nat); lia).
  rewrite <- skipn_skipn.
  assert (Hlen : forall p : Vec3 * Quat, List.length
            ((fun '(t, r) =>
                to_cols_array (mat4_from_affine (from_scale_rotation_translation Vec3_ONE r t)))
               p) = 16%nat).
  { intros [t [a b c d]]; reflexivity. }
  unfold instances_to_data; rewrite (skipn_flat_map_16 _ Hlen).
  rewrite (skipn_nth_cons (Vec3_ZERO, Quat_IDENTITY) poses n Hn); cbn [flat_map].
  destruct (nth n poses (Vec3_ZERO, Quat_IDENTITY)) as [t r].
  destruct i as [|[|[|[|i]]]]; try lia; reflexivity.
Qed.

Lemma instance_attribute_column_witness :
  exists a, nth_error instance_attributes 3 = Some a /\ shader_location a = 5%nat /\
    attr_format a = Float32x4 /\
    fetch_attribute (instances_to_data initial_instances) instance_array_stride 2 a =
      [-1; 0; 2; 1].
Proof.
  destruct (instance_attribute_column initial_instances 2 3) as (a & H1 & H2 & H3 & H4);
    [cbn; lia | lia |].
  exists a; split; [exact H1 | split; [exact H2 | split; [exact H3|]]].
  rewrite H4; reflexivity.
Defined.

(* ------------------------------------------------------------------ *)
(** ** src/blit_state.rs: the presentation quad *)

(** X13: the blit quad lies in the plane z = 0, the texture coordinates
    of each of its vertices are ((x + 1) / 2, (1 - y) / 2), so that the
    top of the screen samples the top row (v = 0) of the texture, and its
    two triangles cover the whole clip-space square [-1, 1] x [-1, 1];
    src/main.rs has the same vertices. *)
Theorem blit_quad_covers_viewport (px py : R) :
  (forall v, In v blit_vertices ->
     z (bv_position v) = 0 /\
     bv_uv_coords v = ((x (bv_position v) + 1) / 2, (1 - y (bv_position v)) / 2)) /\
  (-1 <= px <= 1 -> -1 <= py <= 1 -> exists t, In t blit_triangles /\ in_triangle t px py) /\
  main_blit_vertices = blit_vertices.
Proof.
  split; [|split; [|reflexivity]].
  - intros v Hv; repeat (destruct Hv as [<-|Hv]; [cbn; split; [reflexivity | f_equal; field]|]);
      destruct Hv.
  - intros Hx Hy.
    destruct (Rle_dec py px).
    + exists (blit_vertex (vec3 1 (-1) 0) (1, 1), blit_vertex (vec3 1 1 0) (1, 0),
              blit_vertex (vec3 (-1) (-1) 0) (0, 1)).
      split; [cbn; auto|]. cbn; unfold edge; cbn; left; repeat split; lra.
    + exists (blit_vertex (vec3 1 1 0) (1, 0), blit_vertex (vec3 (-1) 1 0) (0, 0),
              blit_vertex (vec3 (-1) (-1) 0) (0, 1)).
      split; [cbn; auto|]. cbn; unfold edge; cbn; left; repeat split; lra.
Qed.

(* ------------------------------------------------------------------ *)
(** ** src/wgsl.rs *)

Import Wgsl Ascii String.

Lemma strip_prefix_app (p s r : text) : strip_prefix p s = Some r <-> s = p ++ r.
Proof.
  revert s; induction p as [|c p IH]; intros [|d s]; cbn; try (split; congruence).
  destruct (ascii_dec c d) as [<-|Hcd]; rewrite ?IH; split; intros H; congruence.
Qed.

Lemma starts_with_app (p s : text) : starts_with p s = true <-> exists v, s = p ++ v.
Proof.
  unfold starts_with; destruct (strip_prefix p s) as [r|] eqn:E; split; intros H.
  - exists r; apply strip_prefix_app, E.
  - reflexivity.
  - discriminate.
  - destruct H as [v Hv]; apply strip_prefix_app in Hv; congruence.
Qed.

Lemma contains_app (p s : text) : contains p s = true <-> exists u v, s = u ++ p ++ v.
Proof.
  induction s as [|c s IH]; cbn [contains]; rewrite orb_true_iff, starts_with_app.
  - split.
    + intros [[v Hv] | H]; [exists [], v; exact Hv | discriminate].
    + intros (u & v & H); left; exists v; destruct u; [exact H | discriminate].
  - rewrite IH; split.
    + intros [[v Hv] | (u & v & Hv)]; [exists [], v | exists (c :: u), v; rewrite Hv]; auto.
    + intros ([|c' u] & v & H); [left; exists v; exact H | right].
      injection H as <- H; exists u, v; exact H.
Qed.

Lemma contains_nil (p : text) : p <> [] -> contains p [] = false.
Proof. destruct p; [congruence | reflexivity]. Qed.

(** An occurrence of a pattern without '\n' lies on one side of a '\n'. *)
Lemma contains_nl_split (p a b : text) : ~ In nl p ->
  contains p (a ++ nl :: b) = contains p a || contains p b.
Proof.
  intros Hp; apply eq_true_iff_eq; rewrite orb_true_iff, !contains_app; split.
  - intros (u & v & H).
    apply app_eq_app in H as (m & [(Ha & Hm) | (Hu & Hm)]).
    + (* the occurrence starts in a *)
      symmetry in Hm; apply app_eq_app in Hm as (m' & [(Hmp & Hv) | (Hpm & Hv)]).
      * left; exists u, m'; subst; rewrite <- ?app_assoc; reflexivity.
      * destruct m' as [|c m'].
        -- left; exists u, []; rewrite app_nil_r in Hpm; subst; rewrite app_nil_r; reflexivity.
        -- injection Hv as <- _; exfalso; apply Hp; subst p; apply in_or_app; right; left; reflexivity.
    + (* the occurrence starts at the '\n' or in b *)
      destruct m as [|c m]; cbn in Hm.
      * destruct p as [|c p].
        -- right; exists [], b; reflexivity.
        -- injection Hm as <- _; exfalso; apply Hp; left; reflexivity.
      * injection Hm as <- Hm; right; exists m, v; exact Hm.
  - intros [(u & v & H) | (u & v & H)]; subst.
    + exists u, (v ++ nl :: b); rewrite <- !app_assoc; reflexivity.
    + exists (a ++ nl :: u), v; rewrite <- app_assoc; reflexivity.
Qed.

Lemma join_cons (sep l : text) (ls : list text) : ls <> [] ->
  join sep (l :: ls) = l ++ sep ++ join sep ls.
Proof. destruct ls; [congruence | reflexivity]. Qed.

Lemma contains_join (p : text) (ls : list text) : p <> [] -> ~ In nl p ->
  contains p (join [nl] ls) = existsb (contains p) ls.
Proof.
  intros Hp Hnl; induction ls as [|l ls IH].
  - apply contains_nil, Hp.
  - destruct ls as [|l' ls].
    + cbn; rewrite orb_false_r; reflexivity.
    + rewrite join_cons by discriminate; cbn [app].
      rewrite contains_nl_split by exact Hnl; rewrite IH; reflexivity.
Qed.

Lemma strip_cr_prefix (l : text) : exists w, l = strip_cr l ++ w.
Proof.
  unfold strip_cr; destruct (rev l) as [|c r] eqn:E.
  - exists []; apply (f_equal (@rev ascii)) in E; rewrite rev_involutive in E; subst; reflexivity.
  - destruct (ascii_dec c cr).
    + exists [c]; apply (f_equal (@rev ascii)) in E; rewrite rev_involutive in E; exact E.
    + exists []; rewrite app_nil_r; reflexivity.
Qed.

(** Every line is a piece of the text. *)
Lemma lines_from_sub (s cur l : text) :
  In l (lines_from s cur) -> exists u v, rev cur ++ s = u ++ l ++ v.
Proof.
  revert cur; induction s as [|c s IH]; intros cur Hin; cbn in Hin.
  - destruct cur; [contradiction|]; destruct Hin as [<-|[]].
    exists [], []; rewrite !app_nil_r; reflexivity.
  - destruct (ascii_dec c nl) as [->|Hc].
    + destruct Hin as [<-|Hin].
      * destruct (strip_cr_prefix (rev cur)) as [w Hw].
        exists [], (w ++ nl :: s); rewrite Hw at 1; rewrite <- app_assoc; reflexivity.
      * destruct (IH [] Hin) as (u & v & Huv); cbn in Huv.
        exists (rev cur ++ nl :: u), v; rewrite Huv, <- app_assoc; reflexivity.
    + destruct (IH (c :: cur) Hin) as (u & v & Huv); cbn in Huv.
      exists u, v; rewrite <- Huv, <- app_assoc; reflexivity.
Qed.

Lemma lines_from_nonempty (s cur : text) : (s <> [] \/ cur <> []) -> lines_from s cur <> [].
Proof.
  revert cur; induction s as [|c s IH]; intros cur H; cbn.
  - destruct cur; [destruct H; congruence | discriminate].
  - destruct (ascii_dec c nl); [discriminate | apply IH; right; discriminate].
Qed.

(** [lines] then [join("\n")] gives the text back when it has no '\r' and
    no final '\n'. *)
Lemma lines_from_join (s cur : text) :
  ~ In cr s -> ~ In cr cur -> (forall s0, s <> s0 ++ [nl]) ->
  join [nl] (lines_from s cur) = rev cur ++ s.
Proof.
  revert cur; induction s as [|c s IH]; intros cur Hs Hcur Hend; cbn.
  - destruct cur; [reflexivity | cbn; rewrite app_nil_r; reflexivity].
  - destruct (ascii_dec c nl) as [->|Hc].
    + assert (Hs' : s <> []) by (intros ->; apply (Hend []); reflexivity).
      rewrite join_cons by (apply lines_from_nonempty; left; exact Hs').
      rewrite IH; [| intros H; apply Hs; right; exact H | intros [] | ].
      * cbn; f_equal.
        unfold strip_cr; rewrite rev_involutive.
        destruct cur as [|c' cur]; [reflexivity|].
        destruct (ascii_dec c' cr) as [->|]; [exfalso; apply Hcur; left; reflexivity | reflexivity].
      * intros s0 ->; apply (Hend (nl :: s0)); reflexivity.
    + rewrite IH; [cbn; rewrite <- app_assoc; reflexivity | intros H; apply Hs; right; exact H | |].
      * intros [Heq|H]; [apply Hs; left; exact Heq | apply Hcur, H].
      * intros s0 ->; apply (Hend (c :: s0)); reflexivity.
Qed.


Section Loop.
Variable path_eq : text -> text -> bool.
Variable files : list (text * text).

Lemma expand_lines_ok (ls ls' : list text) :
  expand_lines path_eq files ls = inl ls' ->
  Forall2 (fun l l' => expand_line path_eq files l = POk l') ls ls'.
Proof.
  revert ls'; induction ls as [|l ls IH]; intros ls' H; cbn in H.
  - injection H as <-; constructor.
  - destruct (expand_line path_eq files l) eqn:E; [|discriminate].
    destruct (expand_lines path_eq files ls) eqn:E'; [|discriminate].
    injection H as <-; constructor; [exact E | apply IH; reflexivity].
Qed.

Lemma expand_lines_all_ok (ls : list text) :
  (forall l, In l ls -> exists l', expand_line path_eq files l = POk l') ->
  exists ls', expand_lines path_eq files ls = inl ls'.
Proof.
  induction ls as [|l ls IH]; intros H; cbn; [eauto|].
  destruct (H l (or_introl eq_refl)) as [l' ->].
  destruct IH as [ls' ->]; [intros; apply H; right; assumption | eauto].
Qed.

Lemma expand_lines_err_msg (ls : list text) m :
  expand_lines path_eq files ls = inr m -> m = "failed to find file"%string.
Proof.
  induction ls as [|l ls IH]; cbn; [discriminate|].
  unfold expand_line at 1.
  destruct (strip_prefix include_sp l); [destruct (Wgsl.get path_eq files t)|];
    try (intros H; injection H as <-; reflexivity);
    destruct (expand_lines path_eq files ls) eqn:E; intros H; try discriminate;
    injection H as <-; apply IH; reflexivity.
Qed.

Lemma expand_lines_some_err (ls : list text) l m :
  In l ls -> expand_line path_eq files l = PErr m ->
  exists m', expand_lines path_eq files ls = inr m'.
Proof.
  induction ls as [|l0 ls IH]; intros Hin He; [contradiction|]; cbn.
  destruct Hin as [->|Hin]; [rewrite He; eauto|].
  destruct (expand_line path_eq files l0); [|eauto].
  destruct (IH Hin He) as [m' ->]; eauto.
Qed.

Lemma preprocess_rel_det s r1 r2 :
  preprocess_rel path_eq files s r1 -> preprocess_rel path_eq files s r2 -> r1 = r2.
Proof.
  intros H1; revert r2;
  induction H1 as [s Hf | s m Hc He | s s' r Hc He H1 IH]; intros r2 H2;
    inversion H2 as [s0 Hf0 | s0 m0 Hc0 He0 | s0 s0' r0 Hc0 He0 H0]; subst; try congruence.
  rewrite He in He0; injection He0 as <-; apply IH; assumption.
Qed.

Lemma preprocess_fuel_sound n s r :
  preprocess_fuel path_eq files n s = Some r -> preprocess_rel path_eq files s r.
Proof.
  revert s; induction n as [|n IH]; intros s H; cbn [preprocess_fuel] in H; [discriminate|].
  destruct (contains include_kw s) eqn:Hc.
  - destruct (expand path_eq files s) as [s'|m] eqn:He.
    + exact (pp_next _ _ s s' r Hc He (IH s' H)).
    + injection H as <-; apply pp_err; assumption.
  - injection H as <-; apply pp_done; assumption.
Qed.

(** The loop never leaves a text that [expand] maps to itself. *)
Lemma preprocess_fixpoint_diverges s :
  contains include_kw s = true -> expand path_eq files s = POk s ->
  forall r, ~ preprocess_rel path_eq files s r.
Proof.
  intros Hc He r H; induction H as [s Hf | s m _ Herr | s s' r _ Hs _ IH].
  - congruence.
  - congruence.
  - rewrite He in Hs; injection Hs as <-; exact (IH Hc He).
Qed.

End Loop.

Lemma include_kw_nonempty : include_kw <> [].
Proof. discriminate. Qed.

Lemma include_kw_no_nl : ~ In nl include_kw.
Proof. cbv; intuition discriminate. Qed.

Lemma include_sp_contains (f : text) : contains include_kw (include_sp ++ f) = true.
Proof. apply contains_app; exists [], (str " " ++ f); reflexivity. Qed.

Lemma contains_sub (p s l : text) :
  (exists u v, s = u ++ l ++ v) -> contains p l = true -> contains p s = true.
Proof.
  intros (u & v & ->) Hl; apply contains_app in Hl as (u' & v' & ->).
  apply contains_app; exists (u ++ u'), (v' ++ v); rewrite <- !app_assoc; reflexivity.
Qed.

Lemma expand_lines_id path_eq files (ls : list text) :
  (forall l, In l ls -> strip_prefix include_sp l = None) ->
  expand_lines path_eq files ls = inl ls.
Proof.
  induction ls as [|l ls IH]; intros H; cbn; [reflexivity|].
  unfold expand_line at 1; rewrite (H l (or_introl eq_refl)).
  rewrite IH; [reflexivity | intros; apply H; right; assumption].
Qed.

(** X2: when one line of the text is "#include <name>" and no file of
    that name is in the map, [preprocess] fails with the error "failed to
    find file" (whatever the other lines hold). *)
Theorem preprocess_missing_include_fails path_eq files (s l f : text)
  (Hl : In l (lines s)) (Hf : strip_prefix include_sp l = Some f)
  (Hg : Wgsl.get path_eq files f = None) :
  forall r, preprocess_rel path_eq files s r <-> r = PErr "failed to find file"%string.
Proof.
  assert (Hc : contains include_kw s = true).
  { apply strip_prefix_app in Hf.
    apply (contains_sub _ s l); [| rewrite Hf; apply include_sp_contains].
    destruct (lines_from_sub s [] l Hl) as (u & v & Huv); exists u, v; exact Huv. }
  assert (He : expand path_eq files s = PErr "failed to find file"%string).
  { unfold expand.
    assert (Hle : expand_line path_eq files l = PErr "failed to find file"%string)
      by (unfold expand_line; rewrite Hf, Hg; reflexivity).
    destruct (expand_lines_some_err path_eq files (lines s) l _ Hl Hle) as [m Hm].
    rewrite Hm, (expand_lines_err_msg path_eq files (lines s) m Hm); reflexivity. }
  intros r; split.
  - intros Hr; exact (preprocess_rel_det path_eq files s _ _ Hr (pp_err _ _ s _ Hc He)).
  - intros ->; exact (pp_err _ _ s _ Hc He).
Qed.

(** X3: a text that contains "#include" but none of whose lines starts
    with "#include " (for instance a comment mentioning "#include"), with
    no '\r' and no final '\n', makes [preprocess] loop forever: each
    iteration gives the same text back. *)
Theorem preprocess_stray_include_diverges path_eq files (s : text)
  (Hc : contains include_kw s = true)
  (Hno : forall l, In l (lines s) -> strip_prefix include_sp l = None)
  (Hcr : ~ In cr s) (Hend : forall s0, s <> s0 ++ [nl]) :
  forall r, ~ preprocess_rel path_eq files s r.
Proof.
  apply preprocess_fixpoint_diverges; [exact Hc|].
  unfold expand; rewrite (expand_lines_id path_eq files (lines s) Hno).
  unfold lines; rewrite lines_from_join; [reflexivity | exact Hcr | intros [] | exact Hend].
Qed.


Lemma Forall2_in_r {A B} (P : A -> B -> Prop) la lb b :
  Forall2 P la lb -> In b lb -> exists a, In a la /\ P a b.
Proof.
  induction 1 as [|a b' la lb Hab _ IH]; intros Hin; [contradiction|].
  destruct Hin as [<-|Hin]; [exists a; split; [left|]; auto|].
  destruct (IH Hin) as (a' & ? & ?); exists a'; split; [right|]; auto.
Qed.

(** X5: when every line of a text containing "#include" either includes a
    file that is present and whose text has no "#include", or is a plain
    line without "#include", [preprocess] stops after one expansion and
    returns the lines with each include replaced by its file, joined by
    '\n'. *)
Theorem preprocess_single_level path_eq files (s : text)
  (Hc : contains include_kw s = true)
  (Hlines : forall l, In l (lines s) ->
     (exists f t, strip_prefix include_sp l = Some f /\ Wgsl.get path_eq files f = Some t /\
                  contains include_kw t = false) \/
     (strip_prefix include_sp l = None /\ contains include_kw l = false)) :
  exists s', expand path_eq files s = POk s' /\ contains include_kw s' = false /\
    forall r, preprocess_rel path_eq files s r <-> r = POk s'.
Proof.
  destruct (expand_lines_all_ok path_eq files (lines s)) as [ls' Hls'].
  { intros l Hl; unfold expand_line.
    destruct (Hlines l Hl) as [(f & t & Hf & Hg & _) | (Hn & _)].
    - rewrite Hf, Hg; eauto.
    - rewrite Hn; eauto. }
  assert (Hno : existsb (contains include_kw) ls' = false).
  { apply not_true_iff_false; intros Hx; apply existsb_exists in Hx as (l' & Hin & Hl').
    destruct (Forall2_in_r _ _ _ _ (expand_lines_ok path_eq files _ _ Hls') Hin)
      as (l & Hl & Hel).
    unfold expand_line in Hel.
    destruct (Hlines l Hl) as [(f & t & Hf & Hg & Ht) | (Hn & Hln)].
    - rewrite Hf, Hg in Hel; injection Hel as <-; congruence.
    - rewrite Hn in Hel; injection Hel as <-; congruence. }
  assert (He : expand path_eq files s = POk (join [nl] ls'))
    by (unfold expand; rewrite Hls'; reflexivity).
  assert (Hj : contains include_kw (join [nl] ls') = false)
    by (rewrite contains_join; [exact Hno | apply include_kw_nonempty | apply include_kw_no_nl]).
  assert (Hr : preprocess_rel path_eq files s (POk (join [nl] ls')))
    by exact (pp_next _ _ _ _ _ Hc He (pp_done _ _ _ Hj)).
  exists (join [nl] ls'); split; [exact He | split; [exact Hj|]].
  intros r; split; [intros H; exact (preprocess_rel_det _ _ _ _ _ H Hr) | intros ->; exact Hr].
Qed.

(** The unit test [preprocess_can_include] holds of the model. *)
Lemma preprocess_can_include :
  preprocess_rel name_eqb test_files test_main (POk test_expected).
Proof. apply (preprocess_fuel_sound _ _ 3); vm_compute; reflexivity. Qed.

Lemma preprocess_missing_include_fails_witness :
  let s := str "#include missing.wgsl" ++ [nl] ++ str "// rest" in
  In (str "#include missing.wgsl") (lines s) /\
  strip_prefix include_sp (str "#include missing.wgsl") = Some (str "missing.wgsl") /\
  Wgsl.get name_eqb test_files (str "missing.wgsl") = None /\
  (forall r, preprocess_rel name_eqb test_files s r <-> r = PErr "failed to find file"%string).
Proof.
  intros s; split; [vm_compute; left; reflexivity | split; [reflexivity | split; [reflexivity|]]].
  apply (preprocess_missing_include_fails name_eqb test_files s
           (str "#include missing.wgsl") (str "missing.wgsl"));
    [vm_compute; left; reflexivity | reflexivity | reflexivity].
Defined.

Lemma preprocess_stray_include_diverges_witness :
  let s := str "// #include foo.wgsl" in
  contains include_kw s = true /\
  (forall r, ~ preprocess_rel name_eqb test_files s r).
Proof.
  intros s; split; [reflexivity|].
  apply preprocess_stray_include_diverges.
  - reflexivity.
  - intros l Hl; vm_compute in Hl; destruct Hl as [<-|[]]; reflexivity.
  - vm_compute; intuition discriminate.
  - intros s0 H; apply (f_equal (@rev ascii)) in H; rewrite rev_app_distr in H.
    vm_compute in H; discriminate.
Defined.


Lemma preprocess_single_level_witness :
  exists s', expand name_eqb test_files test_blah = POk s' /\
    contains include_kw s' = false /\
    forall r, preprocess_rel name_eqb test_files test_blah r <-> r = POk s'.
Proof.
  apply preprocess_single_level; [reflexivity|].
  intros l Hl; vm_compute in Hl; destruct Hl as [<-|[<-|[]]].
  - left; exists (str "foo.wgsl"), (str "// first file!"); split; [|split]; reflexivity.
  - right; split; reflexivity.
Defined.
